(** * ai_diffusion/model.py: job queue and event reconciliation

    A shallow embedding of [Job], [JobQueue] and the parts of [Model] that
    dispatch generation requests, cancel jobs and consume server messages.

    Conventions of the embedding.
    - Python objects that are mutated through aliases ([Job], [ControlLayer])
      live in a store indexed by references; the queue holds references, and
      [==] / [!=] on jobs is reference equality (the classes define no
      [__eq__]).
    - Python floats are taken as exact rationals: [_memory_usage] only ever
      holds sums and differences of [size / 1024**2], which binary floating
      point represents exactly as long as the byte counts stay below 2^53, and
      [strength] is only compared with [1].
    - A function that can raise returns a [Res] next to the state it leaves
      behind; mutations made before the exception persist, as in Python.
    - Signals are recorded in the order of their [emit]; the slots connected
      to them are not run. The slots of [ControlLayer] write flags of the GUI
      layer. [Model.update_preview], the slot of [job_finished] and
      [selection_changed], shows the selected result on the preview layer or
      hides that layer: it writes [_layer] and [can_apply_result] and calls
      the document, and it reads the queue and the jobs without writing them.
      A property that depends on [_layer] or on the call log after one of
      these two signals is therefore stated for a model in which nothing is
      selected when the signal is emitted, where the slot has at most the
      preview layer to hide.
    - Calls into the host document, the client and the logger that change
      something outside this module are recorded in a call log. *)

From Stdlib Require Import QArith Lqa.
From stdpp Require Import gmap strings list.

Local Open Scope Z_scope.

(** ** Enumerations *)

Module State.
Inductive t := queued | executing | finished | cancelled.

#[global] Instance eq_dec : EqDecision t.
Proof. solve_decision. Defined.
End State.

Module JobKind.
Inductive t := diffusion | control_layer | upscaling | live_preview.

#[global] Instance eq_dec : EqDecision t.
Proof. solve_decision. Defined.
End JobKind.

Module ClientEvent.
Inductive t := progress | finished | interrupted | error.

#[global] Instance eq_dec : EqDecision t.
Proof. solve_decision. Defined.
End ClientEvent.

(** [workflow.ControlMode]: the members this module names; the others are
    told apart by their name. *)
Module ControlMode.
Inductive t := image | scribble | stencil | pose | blur | other (name : string).

#[global] Instance eq_dec : EqDecision t.
Proof. solve_decision. Defined.
End ControlMode.

(** ** Collaborator data: bounds, images, settings *)

Record Extent := mkExtent { width : Z; height : Z }.

Record Bounds := mkBounds { bx : Z; by_ : Z; bwidth : Z; bheight : Z }.

Definition extent (b : Bounds) : Extent := mkExtent (bwidth b) (bheight b).

(** An image is known to this module by a handle on its pixels and by its
    footprint in bytes ([Image.size]). *)
Record Image := mkImage { pixels : nat; image_size : N }.

Definition ImageCollection := list Image.

(** [ImageCollection.size]: the bytes of all images together. *)
Definition collection_size (c : ImageCollection) : N :=
  foldr (fun i acc => (image_size i + acc)%N) 0%N c.

(** [results.size / (1024**2)] *)
Definition size_mb (c : ImageCollection) : Q :=
  (inject_Z (Z.of_N (collection_size c)) / inject_Z (1024 ^ 2))%Q.

Record Mask := mkMask { mask_bounds : Bounds; mask_data : nat }.

(** The settings this module reads. [history_size] is the budget in MB. *)
Record Settings := mkSettings {
  history_size : Z;
  selection_grow : Z;
  selection_feather : Z;
  selection_padding : Z;
  show_control_end : bool
}.

(** [a > b], [a < b] and [a == b] on the rationals *)
Definition Qgtb (a b : Q) : bool := negb (Qle_bool a b).
Definition Qltb (a b : Q) : bool := negb (Qle_bool b a).

(** ** Exceptions *)

(** The exceptions this module raises itself; the [NetworkError] of the
    client, with its [url] and [code] as an f-string formats them; and any
    other exception, by its message. *)
Inductive Exn :=
| IndexError
| ValueError
| AssertionError
| NetworkError (message url code : string)
| OtherError (message : string).

Inductive Res (A : Type) :=
| Ok (a : A)
| Raise (e : Exn).

Arguments Ok {A} a.
Arguments Raise {A} e.

(** Sequencing of calls that can raise: the first exception ends the
    sequence, with the state as it is then. *)
Definition and_then {S A B} (c : Res A * S) (k : A → S → Res B * S) : Res B * S :=
  match c with
  | (Ok a, s) => k a s
  | (Raise e, s) => (Raise e, s)
  end.

(** ** Job *)

Definition JobRef := nat.
Definition ControlRef := nat.

Module Job.
Record t := mk {
  id : option string;
  kind : JobKind.t;
  state : State.t;
  prompt : string;
  bounds : Bounds;
  control : option ControlRef;
  _results : ImageCollection
}.

(** [Job.__init__]; [state] and [control] take their class defaults. The
    [timestamp] attribute is written here and read nowhere in the module. *)
Definition init (id : option string) (kind : JobKind.t) (prompt : string)
    (bounds : Bounds) : t :=
  mk id kind State.queued prompt bounds None [].

Definition results (j : t) : ImageCollection := _results j.

Definition set_state (s : State.t) (j : t) : t :=
  mk (id j) (kind j) s (prompt j) (bounds j) (control j) (_results j).

Definition set_results (r : ImageCollection) (j : t) : t :=
  mk (id j) (kind j) (state j) (prompt j) (bounds j) (control j) r.

Definition set_control (c : option ControlRef) (j : t) : t :=
  mk (id j) (kind j) (state j) (prompt j) (bounds j) c (_results j).
End Job.

#[global] Instance Job_inhabited : Inhabited Job.t :=
  populate (Job.init None JobKind.diffusion "" (mkBounds 0 0 0 0)).

(** ** JobQueue *)

Inductive Signal :=
| count_changed
| selection_changed
| job_finished (job : JobRef).

Record Item := mkItem { item_job : string; item_image : Z }.

Module JobQueue.
Record t := mk {
  (** the [Job] objects, by reference *)
  heap : gmap JobRef Job.t;
  _entries : list JobRef;
  _selection : option Item;
  _memory_usage : Q;
  (** signals emitted so far, oldest first *)
  emitted : list Signal
}.

(** [JobQueue.__init__] *)
Definition init : t := mk ∅ [] None 0%Q [].

Definition deref (q : t) (job : JobRef) : Job.t := heap q !!! job.

Definition with_heap (h : gmap JobRef Job.t) (q : t) : t :=
  mk h (_entries q) (_selection q) (_memory_usage q) (emitted q).

Definition with_entries (l : list JobRef) (q : t) : t :=
  mk (heap q) l (_selection q) (_memory_usage q) (emitted q).

Definition with_selection (s : option Item) (q : t) : t :=
  mk (heap q) (_entries q) s (_memory_usage q) (emitted q).

Definition with_memory_usage (m : Q) (q : t) : t :=
  mk (heap q) (_entries q) (_selection q) m (emitted q).

Definition emit (s : Signal) (q : t) : t :=
  mk (heap q) (_entries q) (_selection q) (_memory_usage q) (emitted q ++ [s]).

(** Assignment to an attribute of the object behind [job]. *)
Definition update_job (job : JobRef) (f : Job.t → Job.t) (q : t) : t :=
  with_heap (<[job := f (deref q job)]> (heap q)) q.

(** Evaluating [Job(...)]: a new object, at a reference nothing holds yet. *)
Definition new_job (j : Job.t) (q : t) : JobRef * t :=
  let r := fresh (dom (heap q)) in
  (r, with_heap (<[r := j]> (heap q)) q).

Definition _add (job : JobRef) (q : t) : JobRef * t :=
  (job, emit count_changed (with_entries (_entries q ++ [job]) q)).

Definition add (id prompt : string) (bounds : Bounds) (q : t) : t :=
  let '(job, q) := new_job (Job.init (Some id) JobKind.diffusion prompt bounds) q in
  (_add job q).2.

(** The prompt texts of [add_control] and [add_upscale] are formatted from
    values of collaborators; they are passed in already formatted. *)
Definition add_control (control : ControlRef) (text : string) (bounds : Bounds)
    (q : t) : JobRef * t :=
  let '(job, q) := new_job (Job.init None JobKind.control_layer text bounds) q in
  let q := update_job job (Job.set_control (Some control)) q in
  _add job q.

Definition add_upscale (text : string) (bounds : Bounds) (q : t) : JobRef * t :=
  let '(job, q) := new_job (Job.init None JobKind.upscaling text bounds) q in
  _add job q.

Definition add_live (prompt : string) (bounds : Bounds) (q : t) : JobRef * t :=
  let '(job, q) := new_job (Job.init None JobKind.live_preview prompt bounds) q in
  _add job q.

(** [deque.remove]: drops the first occurrence. *)
Fixpoint remove_first (job : JobRef) (l : list JobRef) : list JobRef :=
  match l with
  | [] => []
  | j :: rest => if decide (j = job) then rest else j :: remove_first job rest
  end.

Definition remove (job : JobRef) (q : t) : Res unit * t :=
  if decide (job ∈ _entries q)
  then (Ok (), emit count_changed (with_entries (remove_first job (_entries q)) q))
  else (Raise ValueError, q).

Definition find (id : string) (q : t) : option JobRef :=
  List.find (fun j => bool_decide (Job.id (deref q j) = Some id)) (_entries q).

Definition count (state : State.t) (q : t) : nat :=
  length (filter (fun j => Job.state (deref q j) = state) (_entries q)).

(** The loop of [prune], on the two attributes it changes. Python tests the
    usage first and reads [_entries[0]] only when it is over the budget, so
    the empty deque raises exactly then. *)
Fixpoint prune_loop (settings : Settings) (h : gmap JobRef Job.t) (keep : JobRef)
    (entries : list JobRef) (usage : Q) : Res unit * (list JobRef * Q) :=
  match entries with
  | [] =>
      if Qgtb usage (inject_Z (history_size settings))
      then (Raise IndexError, ([], usage))
      else (Ok (), ([], usage))
  | first :: rest =>
      if Qgtb usage (inject_Z (history_size settings)) && bool_decide (first ≠ keep)
      then prune_loop settings h keep rest
             (usage - size_mb (Job._results (h !!! first)))%Q
      else (Ok (), (entries, usage))
  end.

Definition prune (settings : Settings) (keep : JobRef) (q : t) : Res unit * t :=
  let '(r, (entries, usage)) :=
    prune_loop settings (heap q) keep (_entries q) (_memory_usage q) in
  (r, with_memory_usage usage (with_entries entries q)).

Definition set_results (settings : Settings) (job : JobRef)
    (results : ImageCollection) (q : t) : Res unit * t :=
  let q := update_job job (Job.set_results results) q in
  if decide (Job.kind (deref q job) = JobKind.diffusion)
  then
    let q := with_memory_usage (_memory_usage q + size_mb results)%Q q in
    prune settings job q
  else (Ok (), q).

Definition notify_started (job : JobRef) (q : t) : t :=
  emit count_changed (update_job job (Job.set_state State.executing) q).

Definition notify_finished (job : JobRef) (q : t) : t :=
  emit count_changed
    (emit (job_finished job) (update_job job (Job.set_state State.finished) q)).

Definition select (job_id : string) (index : Z) (q : t) : t :=
  emit selection_changed (with_selection (Some (mkItem job_id index)) q).

Definition any_executing (q : t) : bool :=
  existsb (fun j => bool_decide (Job.state (deref q j) = State.executing)) (_entries q).

Definition memory_usage (q : t) : Q := _memory_usage q.
End JobQueue.

(** ** Collaborators of the orchestrator *)

(** A layer of the host document: one that was there, or the one a recorded
    insertion created (named by the position of that call in the log). *)
Inductive Layer :=
| layer_existing (uid : nat)
| layer_inserted (call : nat).

Record Control := mkControl {
  control_mode : ControlMode.t;
  control_image : Image;
  control_strength : Q;
  control_end : Q
}.

Record Conditioning := mkConditioning {
  cond_prompt : string;
  cond_negative_prompt : string;
  cond_control : list Control;
  cond_area : option Bounds
}.

Definition Style := string.

(** What the [workflow] constructors are called with (the client apart). *)
Inductive Work :=
| work_generate (style : Style) (e : Extent) (cond : Conditioning)
| work_refine (style : Style) (image : Image) (cond : Conditioning) (strength : Q)
| work_inpaint (style : Style) (image : Image) (mask : Mask) (cond : Conditioning)
| work_refine_region (style : Style) (image : Image) (mask : Mask)
    (cond : Conditioning) (strength : Q).

Module ClientMessage.
Record t := mk {
  event : ClientEvent.t;
  job_id : string;
  progress : Q;
  images : option ImageCollection;
  result : option string;
  error : option string
}.
End ClientMessage.

Record Client := mkClient { enqueue : Work → Res string }.

(** What the collaborators answer while one operation runs: the document's
    observers, the functions of [workflow] and [Bounds], and the connection's
    client. [current_image] is the projection [_get_current_image] asks the
    document for (given the preview layer to leave out), [control_images] the
    list [[c.get_image(bounds) for c in self.control]]; both read layers and
    can raise. [log_error] is [util.log_error], which is not part of this
    module: the text it returns for an exception. *)
Record Host := mkHost {
  check_color_mode : bool * option string;
  doc_extent : Extent;
  create_mask_from_selection : Q → Q → Q → option Mask * option Bounds;
  current_image : Bounds → option Layer → Res Image;
  control_images : Bounds → Res (list Control);
  active_layer : Layer;
  compute_bounds : Extent → option Bounds → Q → Bounds;
  apply_crop : Bounds → Bounds → Bounds;
  minimum_size : Bounds → Z → Extent → Bounds;
  client : Res Client;
  log_error : Exn → string
}.

Inductive Call :=
| insert_vector_layer (name pose_json : string) (scale : Extent) (below : option Layer)
| insert_layer (name : string) (image : Image) (b : Bounds) (below : option Layer)
| layer_remove (l : Layer)
| client_enqueue (w : Work)
| logger_error (message : ClientMessage.t).

Module ControlLayer.
Record t := mk { mode : ControlMode.t; layer_id : Layer }.

Definition set_layer_id (l : Layer) (c : t) : t := mk (mode c) l.
End ControlLayer.

#[global] Instance ControlLayer_inhabited : Inhabited ControlLayer.t :=
  populate (ControlLayer.mk ControlMode.image (layer_existing 0)).

(** The coroutine a dispatch hands to the event loop, with its arguments. *)
Inductive Coroutine :=
| co_generate (b : Bounds) (cond : Conditioning) (image : option Image)
    (mask : option Mask).

(** Truth value of an optional string, and of an optional collection. *)
Definition truthy_str (s : option string) : bool :=
  match s with
  | Some s => negb (bool_decide (s = ""))
  | None => false
  end.

Definition truthy_images (c : option ImageCollection) : bool :=
  match c with
  | Some (_ :: _) => true
  | _ => false
  end.

Definition lift {S A} (r : Res A) (s : S) : Res A * S := (r, s).

(** ** Model *)

Module Model.
Record t := mk {
  jobs : JobQueue.t;
  (** the [ControlLayer] objects, by reference *)
  controls : gmap ControlRef ControlLayer.t;
  style : Style;
  prompt : string;
  negative_prompt : string;
  strength : Q;
  progress : Q;
  error : string;
  live_is_active : bool;
  _layer : option Layer;
  _live_result : option Image;
  task : option Coroutine;
  (** calls made on the document, the client and the logger, oldest first *)
  calls : list Call
}.

Definition with_jobs (q : JobQueue.t) (m : t) : t :=
  mk q (controls m) (style m) (prompt m) (negative_prompt m) (strength m)
    (progress m) (error m) (live_is_active m) (_layer m) (_live_result m)
    (task m) (calls m).

Definition with_controls (c : gmap ControlRef ControlLayer.t) (m : t) : t :=
  mk (jobs m) c (style m) (prompt m) (negative_prompt m) (strength m)
    (progress m) (error m) (live_is_active m) (_layer m) (_live_result m)
    (task m) (calls m).

Definition with_progress (p : Q) (m : t) : t :=
  mk (jobs m) (controls m) (style m) (prompt m) (negative_prompt m) (strength m)
    p (error m) (live_is_active m) (_layer m) (_live_result m)
    (task m) (calls m).

Definition with_error (e : string) (m : t) : t :=
  mk (jobs m) (controls m) (style m) (prompt m) (negative_prompt m) (strength m)
    (progress m) e (live_is_active m) (_layer m) (_live_result m)
    (task m) (calls m).

Definition with_live_is_active (b : bool) (m : t) : t :=
  mk (jobs m) (controls m) (style m) (prompt m) (negative_prompt m) (strength m)
    (progress m) (error m) b (_layer m) (_live_result m)
    (task m) (calls m).

Definition with_layer (l : option Layer) (m : t) : t :=
  mk (jobs m) (controls m) (style m) (prompt m) (negative_prompt m) (strength m)
    (progress m) (error m) (live_is_active m) l (_live_result m)
    (task m) (calls m).

Definition with_live_result (i : option Image) (m : t) : t :=
  mk (jobs m) (controls m) (style m) (prompt m) (negative_prompt m) (strength m)
    (progress m) (error m) (live_is_active m) (_layer m) i
    (task m) (calls m).

Definition with_task (c : option Coroutine) (m : t) : t :=
  mk (jobs m) (controls m) (style m) (prompt m) (negative_prompt m) (strength m)
    (progress m) (error m) (live_is_active m) (_layer m) (_live_result m)
    c (calls m).

Definition call (c : Call) (m : t) : t :=
  mk (jobs m) (controls m) (style m) (prompt m) (negative_prompt m) (strength m)
    (progress m) (error m) (live_is_active m) (_layer m) (_live_result m)
    (task m) (calls m ++ [c]).

(** [Model.__init__] with the defaults of the properties, for a session that
    starts on [style]. *)
Definition init (style : Style) : t :=
  mk JobQueue.init ∅ style "" "" 1%Q 0%Q "" false None None None [].

Definition report_progress (value : Q) (m : t) : t := with_progress value m.

Definition report_error (message : string) (m : t) : t :=
  with_live_is_active false (with_error message m).

Definition clear_error (m : t) : t :=
  if bool_decide (error m ≠ "") then with_error "" m else m.

(** [_report_errors]: whatever the coroutine raises ends in the error
    field, as the text [util.log_error] gives for it; the url and the code of
    a [NetworkError] are appended. *)
Definition _report_errors (host : Host) (r : Res unit * t) : t :=
  match r with
  | (Ok _, m) => m
  | (Raise (NetworkError message url code as e), m) =>
      report_error (log_error host e +:+ " [url=" +:+ url +:+ ", code=" +:+ code +:+ "]") m
  | (Raise e, m) => report_error (log_error host e) m
  end.

(** [generate], up to the hand-over of the coroutine to the event loop. *)
Definition generate (settings : Settings) (host : Host) (m : t) : Res unit * t :=
  let '(ok, msg) := check_color_mode host in
  if negb ok && truthy_str msg then (Ok (), report_error (default "" msg) m)
  else
    let extent_ := doc_extent host in
    let '(mask, selection_bounds) :=
      create_mask_from_selection host
        (inject_Z (selection_grow settings) / 100)%Q
        (inject_Z (selection_feather settings) / 100)%Q
        (inject_Z (selection_padding settings) / 100)%Q in
    let image_bounds :=
      compute_bounds host extent_ (mask_bounds <$> mask) (strength m) in
    and_then
      (if bool_decide (mask ≠ None) || Qltb (strength m) 1
       then and_then (lift (current_image host image_bounds (_layer m)) m)
              (fun i m => (Ok (Some i), m))
       else (Ok None, m))
      (fun image m =>
    let selection_bounds :=
      (fun sb => minimum_size host (apply_crop host sb image_bounds) 64
                   (extent image_bounds)) <$> selection_bounds in
    and_then (lift (control_images host image_bounds) m) (fun control m =>
    let conditioning :=
      mkConditioning (prompt m) (negative_prompt m) control
        (if Qeq_bool (strength m) 1 then selection_bounds else None) in
    let m := clear_error m in
    (Ok (), with_task (Some (co_generate image_bounds conditioning image mask)) m))).

(** [_generate], run in one piece with the client's answer to [enqueue]. *)
Definition _generate (host : Host) (b : Bounds) (conditioning : Conditioning)
    (image : option Image) (mask : option Mask) (m : t) : Res unit * t :=
  and_then (lift (client host) m) (fun client_ m =>
  let style_ := style m in
  let strength_ := strength m in
  let m := if negb (JobQueue.any_executing (jobs m)) then with_progress 0%Q m else m in
  let '(b, mask) :=
    match mask with
    | Some k =>
        let mask_bounds_rel :=
          mkBounds (bx (mask_bounds k) - bx b) (by_ (mask_bounds k) - by_ b)
            (bwidth (mask_bounds k)) (bheight (mask_bounds k)) in
        (mask_bounds k, Some (mkMask mask_bounds_rel (mask_data k)))
    | None => (b, None)
    end in
  and_then
    (lift
       (if bool_decide (image = None) && bool_decide (mask = None) then
          if Qeq_bool strength_ 1
          then Ok (work_generate style_ (extent b) conditioning)
          else Raise AssertionError
        else if bool_decide (mask = None) && Qltb strength_ 1 then
          match image with
          | Some i => Ok (work_refine style_ i conditioning strength_)
          | None => Raise AssertionError
          end
        else if Qeq_bool strength_ 1 then
          match image, mask with
          | Some i, Some k => Ok (work_inpaint style_ i k conditioning)
          | _, _ => Raise AssertionError
          end
        else
          match image, mask with
          | Some i, Some k =>
              if Qltb strength_ 1
              then Ok (work_refine_region style_ i k conditioning strength_)
              else Raise AssertionError
          | _, _ => Raise AssertionError
          end) m)
    (fun job m =>
  let m := call (client_enqueue job) m in
  and_then (lift (enqueue client_ job) m) (fun job_id m =>
  (Ok (), with_jobs (JobQueue.add job_id (cond_prompt conditioning) b (jobs m)) m)))).

(** The event loop running the coroutine of [task]. *)
Definition run_task (host : Host) (m : t) : t :=
  match task m with
  | Some (co_generate b cond image mask) =>
      _report_errors host (_generate host b cond image mask m)
  | None => m
  end.

Definition add_control_layer (host : Host) (job : JobRef) (result : option string)
    (m : t) : Res Layer * t :=
  let j := JobQueue.deref (jobs m) job in
  match Job.control j with
  | Some c =>
      if bool_decide (Job.kind j = JobKind.control_layer) then
        match
          (if bool_decide (ControlLayer.mode (controls m !!! c) = ControlMode.pose)
           then result else None),
          Job.results j
        with
        | Some pose_json, _ =>
            (Ok (layer_inserted (length (calls m))),
             call (insert_vector_layer (Job.prompt j) pose_json
                     (extent (Job.bounds j)) (_layer m)) m)
        | None, first :: _ =>
            (Ok (layer_inserted (length (calls m))),
             call (insert_layer (Job.prompt j) first (Job.bounds j) (_layer m)) m)
        | None, [] => (Ok (active_layer host), m)
        end
      else (Raise AssertionError, m)
  | None => (Raise AssertionError, m)
  end.

Definition add_upscale_layer (job : JobRef) (m : t) : Res unit * t :=
  let j := JobQueue.deref (jobs m) job in
  if bool_decide (Job.kind j = JobKind.upscaling) then
    match Job.results j with
    | first :: _ =>
        let m :=
          match _layer m with
          | Some l => with_layer None (call (layer_remove l) m)
          | None => m
          end in
        (Ok (), call (insert_layer (Job.prompt j) first (Job.bounds j) None) m)
    | [] => (Raise AssertionError, m)
    end
  else (Raise AssertionError, m).

Definition handle_message (settings : Settings) (host : Host)
    (message : ClientMessage.t) (m : t) : Res unit * t :=
  match JobQueue.find (ClientMessage.job_id message) (jobs m) with
  | None => (Ok (), call (logger_error message) m)
  | Some job =>
      match ClientMessage.event message with
      | ClientEvent.progress =>
          let m := with_jobs (JobQueue.notify_started job (jobs m)) m in
          (Ok (), report_progress (ClientMessage.progress message) m)
      | ClientEvent.finished =>
          and_then
            (if truthy_images (ClientMessage.images message) then
               let '(r, q) :=
                 JobQueue.set_results settings job
                   (default [] (ClientMessage.images message)) (jobs m) in
               (r, with_jobs q m)
             else (Ok (), m))
            (fun _ m =>
          let kind := Job.kind (JobQueue.deref (jobs m) job) in
          and_then
            (match kind with
             | JobKind.control_layer =>
                 match Job.control (JobQueue.deref (jobs m) job) with
                 | Some c =>
                     and_then (add_control_layer host job (ClientMessage.result message) m)
                       (fun l m =>
                          (Ok (),
                           with_controls
                             (<[c := ControlLayer.set_layer_id l (controls m !!! c)]>
                                (controls m)) m))
                 | None => (Raise AssertionError, m)
                 end
             | JobKind.upscaling => add_upscale_layer job m
             | JobKind.live_preview =>
                 match Job.results (JobQueue.deref (jobs m) job) with
                 | first :: _ => (Ok (), with_live_result (Some first) m)
                 | [] => (Ok (), m)
                 end
             | JobKind.diffusion => (Ok (), m)
             end)
            (fun _ m =>
          let m := with_progress 1%Q m in
          let m := with_jobs (JobQueue.notify_finished job (jobs m)) m in
          if bool_decide (kind ≠ JobKind.diffusion) then
            let '(r, q) := JobQueue.remove job (jobs m) in
            (r, with_jobs q m)
          else if bool_decide (_layer m = None)
                  && truthy_str (Job.id (JobQueue.deref (jobs m) job)) then
            (Ok (),
             with_jobs
               (JobQueue.select (default "" (Job.id (JobQueue.deref (jobs m) job))) 0
                  (jobs m)) m)
          else (Ok (), m)))
      | ClientEvent.interrupted =>
          let m := with_jobs
                     (JobQueue.update_job job (Job.set_state State.cancelled) (jobs m)) m in
          (Ok (), report_progress 0%Q m)
      | ClientEvent.error =>
          let m := with_jobs
                     (JobQueue.update_job job (Job.set_state State.cancelled) (jobs m)) m in
          (Ok (),
           report_error
             ("Server execution error: " +:+ default "None" (ClientMessage.error message))
             m)
      end
  end.
End Model.

(** ** Vocabulary of the properties *)

Definition sum_over (f : JobRef → Q) (l : list JobRef) : Q :=
  foldr (fun j acc => (f j + acc)%Q) 0%Q l.

(** The megabytes one job of the queue contributes to the history: the size of
    its results if it is a diffusion job, nothing otherwise. *)
Definition counted_mb (q : JobQueue.t) (job : JobRef) : Q :=
  if decide (Job.kind (JobQueue.deref q job) = JobKind.diffusion)
  then size_mb (Job.results (JobQueue.deref q job))
  else 0%Q.

(** Sum of the result sizes of the diffusion jobs in the deque. *)
Definition diffusion_results_mb (q : JobQueue.t) : Q :=
  sum_over (counted_mb q) (JobQueue._entries q).

(** The calls of a client of the queue that the accounting is about: the
    four ways to add a job, [remove] and [set_results]. *)
Inductive QueueOp :=
| op_add (id prompt : string) (b : Bounds)
| op_add_control (control : ControlRef) (text : string) (b : Bounds)
| op_add_upscale (text : string) (b : Bounds)
| op_add_live (prompt : string) (b : Bounds)
| op_remove (job : JobRef)
| op_set_results (job : JobRef) (results : ImageCollection).

Definition run_op (settings : Settings) (op : QueueOp) (q : JobQueue.t)
    : Res unit * JobQueue.t :=
  match op with
  | op_add id prompt b => (Ok (), JobQueue.add id prompt b q)
  | op_add_control control text b => (Ok (), (JobQueue.add_control control text b q).2)
  | op_add_upscale text b => (Ok (), (JobQueue.add_upscale text b q).2)
  | op_add_live prompt b => (Ok (), (JobQueue.add_live prompt b q).2)
  | op_remove job => JobQueue.remove job q
  | op_set_results job results => JobQueue.set_results settings job results q
  end.

(** A sequence of calls; a call that raises leaves the queue as it is at the
    exception, and the next call finds it so. *)
Definition run_ops (settings : Settings) (ops : list QueueOp) (q : JobQueue.t)
    : JobQueue.t :=
  foldl (fun q op => (run_op settings op q).2) q ops.

Definition is_diffusion (q : JobQueue.t) (job : JobRef) : bool :=
  bool_decide (Job.kind (JobQueue.deref q job) = JobKind.diffusion).

Definition holds_no_bytes (q : JobQueue.t) (job : JobRef) : bool :=
  bool_decide (collection_size (Job.results (JobQueue.deref q job)) = 0%N).

(** The way [Model] uses the queue. A diffusion job is not removed while it
    holds result bytes. Results are attached to a diffusion job while it is in
    the queue and holds no result bytes yet, and while no job of another kind
    in the queue holds result bytes (a job of another kind is removed in the
    very handler that attaches its results). *)
Definition disciplined (q : JobQueue.t) (op : QueueOp) : bool :=
  match op with
  | op_add _ _ _ | op_add_control _ _ _ | op_add_upscale _ _ | op_add_live _ _ => true
  | op_remove job => negb (is_diffusion q job) || holds_no_bytes q job
  | op_set_results job _ =>
      negb (is_diffusion q job)
      || (bool_decide (job ∈ JobQueue._entries q)
          && holds_no_bytes q job
          && forallb (fun j => is_diffusion q j || holds_no_bytes q j)
               (JobQueue._entries q))
  end.

Fixpoint disciplined_run (settings : Settings) (ops : list QueueOp) (q : JobQueue.t)
    : bool :=
  match ops with
  | [] => true
  | op :: ops =>
      disciplined q op && disciplined_run settings ops (run_op settings op q).2
  end.

(** The accounting is in order: the deque holds distinct, existing jobs, and
    the accumulator is the sum of the result sizes of the diffusion jobs among
    them. *)
Definition accounted (q : JobQueue.t) : Prop :=
  NoDup (JobQueue._entries q) ∧
  (∀ j, j ∈ JobQueue._entries q → j ∈ dom (JobQueue.heap q)) ∧
  (JobQueue.memory_usage q == diffusion_results_mb q)%Q.

(** "The result sequence is empty unless the state is finished", for the jobs
    of the queue. *)
Definition results_only_when_finished (q : JobQueue.t) : Prop :=
  ∀ job, job ∈ JobQueue._entries q →
    Job.results (JobQueue.deref q job) ≠ [] →
    Job.state (JobQueue.deref q job) = State.finished.

(** The same for all jobs but one: the state between [set_results] and
    [notify_finished] in [handle_message]. *)
Definition results_only_when_finished_except (job : JobRef) (q : JobQueue.t) : Prop :=
  ∀ j, j ∈ JobQueue._entries q → j ≠ job →
    Job.results (JobQueue.deref q j) ≠ [] →
    Job.state (JobQueue.deref q j) = State.finished.

(** Data of the scenarios: one image of [n] MB, a budget of [mb] MB. *)
Definition megabytes (n : N) : ImageCollection := [mkImage 0 (n * 1024 * 1024)%N].

Definition budget (mb : Z) : Settings := mkSettings mb 5 5 7 false.

Definition canvas : Bounds := mkBounds 0 0 512 512.

(** The text the logger of the scenarios gives: the message of the exception,
    empty where the exception carries none. *)
Definition exception_message (e : Exn) : string :=
  match e with
  | NetworkError message _ _ | OtherError message => message
  | _ => ""
  end.

(** A host with a 512 x 512 document and no selection, whose client answers
    every request with the job id [reply]; and the same host with a selection
    in the middle of the document. *)
Definition host_without_selection (reply : string) : Host :=
  mkHost (true, None) (mkExtent 512 512)
    (fun _ _ _ => (None, None))
    (fun _ _ => Ok (mkImage 1 1048576))
    (fun _ => Ok [])
    (layer_existing 0)
    (fun e _ _ => mkBounds 0 0 (width e) (height e))
    (fun b _ => b)
    (fun b _ _ => b)
    (Ok (mkClient (fun _ => Ok reply)))
    exception_message.


(** A model whose queue holds the diffusion job "J1" that [generate] and the
    event loop put there. *)
Definition model_with_job : Model.t :=
  Model.run_task (host_without_selection "J1")
    (Model.generate (budget 40) (host_without_selection "J1") (Model.init "style")).2.

Definition server_message (event : ClientEvent.t) (job_id : string)
    (images : option ImageCollection) : ClientMessage.t :=
  ClientMessage.mk event job_id 0%Q images None None.

(** The references the first two jobs created on an empty store get. *)
Definition J1 : JobRef := 0%nat.
Definition J2 : JobRef := 1%nat.

(** ** More of [JobQueue] *)

(** Assignment to [job.id], as the dispatchers of the other kinds do once the
    client has answered. *)
Definition Job_set_id (i : option string) (j : Job.t) : Job.t :=
  Job.mk i (Job.kind j) (Job.state j) (Job.prompt j) (Job.bounds j) (Job.control j)
    (Job._results j).

(** The setter of [JobQueue.selection], which also takes [None]. *)
Definition JobQueue_set_selection (value : option Item) (q : JobQueue.t) : JobQueue.t :=
  JobQueue.emit selection_changed (JobQueue.with_selection value q).

(** [JobQueue.__len__] *)
Definition JobQueue_len (q : JobQueue.t) : nat := length (JobQueue._entries q).

(** The megabytes of results the jobs of a list hold, whatever their kind:
    what [prune] subtracts when it drops them. *)
Definition held_mb (q : JobQueue.t) (l : list JobRef) : Q :=
  sum_over (fun j => size_mb (Job.results (JobQueue.deref q j))) l.

(** ** [Model.cancel] *)

(** The calls [cancel] makes on the connection. *)
Inductive ConnectionCall := clear_queue | interrupt.

(** [for job in to_remove: self.jobs.remove(job)] *)
Fixpoint remove_each (to_remove : list JobRef) (q : JobQueue.t) : Res unit * JobQueue.t :=
  match to_remove with
  | [] => (Ok (), q)
  | job :: rest => and_then (JobQueue.remove job q) (fun _ q => remove_each rest q)
  end.

(** [cancel], on the model and the log of the calls made on the connection. *)
Definition Model_cancel (active queued : bool) (s : Model.t * list ConnectionCall)
    : Res unit * (Model.t * list ConnectionCall) :=
  let '(m, connection) := s in
  and_then
    (if queued then
       let to_remove :=
         filter (fun job => Job.state (JobQueue.deref (Model.jobs m) job) = State.queued)
           (JobQueue._entries (Model.jobs m)) in
       if bool_decide (0 < length to_remove)%nat then
         let connection := connection ++ [clear_queue] in
         let '(r, q) := remove_each to_remove (Model.jobs m) in
         (r, (Model.with_jobs q m, connection))
       else (Ok (), (m, connection))
     else (Ok (), (m, connection)))
    (fun _ '(m, connection) =>
       if active && JobQueue.any_executing (Model.jobs m)
       then (Ok (), (m, connection ++ [interrupt]))
       else (Ok (), (m, connection))).

(** ** The operations that write the queue or a job *)

(** Every method of [JobQueue] that changes something (the others, [find],
    [count], [any_executing] and the accessors, only read), and the methods of
    [Model] embedded here. [call_assign_id] is the assignment
    [job.id = await client.enqueue(work)] by which the coroutines of
    [upscale_image], [generate_live] and [generate_control_layer] write a job;
    their jobs enter the queue through [add_upscale], [add_live] and
    [add_control]. *)
Inductive Operation :=
| call_add (id prompt : string) (b : Bounds)
| call_add_control (control : ControlRef) (text : string) (b : Bounds)
| call_add_upscale (text : string) (b : Bounds)
| call_add_live (prompt : string) (b : Bounds)
| call_remove (job : JobRef)
| call_set_results (job : JobRef) (results : ImageCollection)
| call_notify_started (job : JobRef)
| call_notify_finished (job : JobRef)
| call_prune (keep : JobRef)
| call_select (job_id : string) (index : Z)
| call_set_selection (value : option Item)
| call_generate
| call_run_task
| call_assign_id (job : JobRef) (id : string)
| call_cancel (active queued : bool)
| call_report_progress (value : Q)
| call_report_error (message : string)
| call_clear_error
| call_add_control_layer (job : JobRef) (result : option string)
| call_add_upscale_layer (job : JobRef)
| call_handle_message (message : ClientMessage.t).

(** A call on [self.jobs]. *)
Definition on_jobs {A} (f : JobQueue.t → Res A * JobQueue.t) (m : Model.t)
    : Res unit * Model.t :=
  let '(r, q) := f (Model.jobs m) in
  (match r with Ok _ => Ok () | Raise e => Raise e end, Model.with_jobs q m).

Definition perform (settings : Settings) (host : Host) (op : Operation) (m : Model.t)
    : Res unit * Model.t :=
  match op with
  | call_add id prompt b => on_jobs (fun q => (Ok (), JobQueue.add id prompt b q)) m
  | call_add_control control text b =>
      on_jobs (fun q => let '(job, q) := JobQueue.add_control control text b q in
                        (Ok job, q)) m
  | call_add_upscale text b =>
      on_jobs (fun q => let '(job, q) := JobQueue.add_upscale text b q in (Ok job, q)) m
  | call_add_live prompt b =>
      on_jobs (fun q => let '(job, q) := JobQueue.add_live prompt b q in (Ok job, q)) m
  | call_remove job => on_jobs (JobQueue.remove job) m
  | call_set_results job results => on_jobs (JobQueue.set_results settings job results) m
  | call_notify_started job => on_jobs (fun q => (Ok (), JobQueue.notify_started job q)) m
  | call_notify_finished job =>
      on_jobs (fun q => (Ok (), JobQueue.notify_finished job q)) m
  | call_prune keep => on_jobs (JobQueue.prune settings keep) m
  | call_select job_id index =>
      on_jobs (fun q => (Ok (), JobQueue.select job_id index q)) m
  | call_set_selection value =>
      on_jobs (fun q => (Ok (), JobQueue_set_selection value q)) m
  | call_generate => Model.generate settings host m
  | call_run_task => (Ok (), Model.run_task host m)
  | call_assign_id job id =>
      on_jobs (fun q => (Ok (), JobQueue.update_job job (Job_set_id (Some id)) q)) m
  | call_cancel active queued =>
      let '(r, (m, _)) := Model_cancel active queued (m, []) in (r, m)
  | call_report_progress value => (Ok (), Model.report_progress value m)
  | call_report_error message => (Ok (), Model.report_error message m)
  | call_clear_error => (Ok (), Model.clear_error m)
  | call_add_control_layer job result =>
      let '(r, m) := Model.add_control_layer host job result m in
      (match r with Ok _ => Ok () | Raise e => Raise e end, m)
  | call_add_upscale_layer job => Model.add_upscale_layer job m
  | call_handle_message message => Model.handle_message settings host message m
  end.

(** What the three kinds of operation that attach results or move a job out
    of its state need, to keep results with the finished jobs only:
    [set_results] attaches nothing or finds the job finished; [notify_started]
    and the [progress], [interrupted] and [error] branches of [handle_message]
    find a job without results; the [finished] branch returns. *)
Definition keeps_results_with_finished (settings : Settings) (host : Host)
    (op : Operation) (m : Model.t) : Prop :=
  match op with
  | call_set_results job results =>
      results = [] ∨ Job.state (JobQueue.deref (Model.jobs m) job) = State.finished
  | call_notify_started job => Job.results (JobQueue.deref (Model.jobs m) job) = []
  | call_handle_message message =>
      match JobQueue.find (ClientMessage.job_id message) (Model.jobs m) with
      | None => True
      | Some job =>
          match ClientMessage.event message with
          | ClientEvent.finished =>
              (Model.handle_message settings host message m).1 = Ok ()
          | _ => Job.results (JobQueue.deref (Model.jobs m) job) = []
          end
      end
  | _ => True
  end.

(** A run of operations; an operation that raises leaves the model as it is
    at the exception, and the next one finds it so. *)
Definition perform_all (settings : Settings) (host : Host) (ops : list Operation)
    (m : Model.t) : Model.t :=
  foldl (fun m op => (perform settings host op m).2) m ops.

(** Each operation of the run meets its condition when its turn comes. *)
Fixpoint keeps_results_along (settings : Settings) (host : Host)
    (ops : list Operation) (m : Model.t) : Prop :=
  match ops with
  | [] => True
  | op :: ops =>
      keeps_results_with_finished settings host op m ∧
      keeps_results_along settings host ops (perform settings host op m).2
  end.

(** * Properties *)

(** ** Rational comparisons *)

Lemma Qgtb_true (a b : Q) : Qgtb a b = true ↔ (b < a)%Q.
Proof.
  unfold Qgtb. rewrite negb_true_iff, <- not_true_iff_false, Qle_bool_iff.
  split; [apply Qnot_le_lt | apply Qlt_not_le].
Qed.

Lemma Qgtb_false (a b : Q) : Qgtb a b = false ↔ (a <= b)%Q.
Proof. unfold Qgtb. rewrite negb_false_iff. apply Qle_bool_iff. Qed.


Lemma size_mb_zero (c : ImageCollection) :
  collection_size c = 0%N → (size_mb c == 0)%Q.
Proof. intros H. unfold size_mb. rewrite H. reflexivity. Qed.

(** ** Sums of megabytes over a list of jobs *)

Lemma sum_over_ext (f g : JobRef → Q) (l : list JobRef) :
  (∀ j, j ∈ l → (f j == g j)%Q) → (sum_over f l == sum_over g l)%Q.
Proof.
  induction l as [|a l IH]; intros H; simpl; [reflexivity|].
  rewrite (H a) by left. rewrite IH; [reflexivity|].
  intros j Hj. apply H. by right.
Qed.

Lemma sum_over_app (f : JobRef → Q) (l1 l2 : list JobRef) :
  (sum_over f (l1 ++ l2) == sum_over f l1 + sum_over f l2)%Q.
Proof.
  induction l1 as [|a l1 IH]; simpl; [lra|]. rewrite IH. lra.
Qed.

Lemma sum_over_remove_first (f : JobRef → Q) (job : JobRef) (l : list JobRef) :
  job ∈ l → (sum_over f (JobQueue.remove_first job l) == sum_over f l - f job)%Q.
Proof.
  induction l as [|a l IH]; intros Hin; [by apply elem_of_nil in Hin|].
  simpl. destruct (decide (a = job)) as [->|Hne]; [lra|].
  apply elem_of_cons in Hin as [->|Hin]; [done|].
  simpl. rewrite IH by done. lra.
Qed.

Lemma sum_over_update (f g : JobRef → Q) (job : JobRef) (l : list JobRef) :
  NoDup l → job ∈ l → (∀ j, j ≠ job → (g j == f j)%Q) →
  (sum_over g l == sum_over f l - f job + g job)%Q.
Proof.
  induction l as [|a l IH]; intros Hnd Hin Hext; [by apply elem_of_nil in Hin|].
  apply NoDup_cons in Hnd as [Ha Hnd]. simpl.
  apply elem_of_cons in Hin as [->|Hin].
  - rewrite (sum_over_ext g f l); [lra|].
    intros j Hj. apply Hext. intros ->. done.
  - rewrite IH by done. rewrite (Hext a); [lra|]. intros ->. done.
Qed.

Lemma remove_first_subset (job j : JobRef) (l : list JobRef) :
  j ∈ JobQueue.remove_first job l → j ∈ l.
Proof.
  induction l as [|a l IH]; simpl; [done|].
  destruct (decide (a = job)); [intros; by right|].
  rewrite !elem_of_cons. intros [->|Hj]; [by left | right; by apply IH].
Qed.

Lemma remove_first_NoDup (job : JobRef) (l : list JobRef) :
  NoDup l → NoDup (JobQueue.remove_first job l).
Proof.
  induction l as [|a l IH]; simpl; [done|].
  rewrite NoDup_cons. intros [Ha Hnd].
  destruct (decide (a = job)); [done|].
  apply NoDup_cons. split; [|by apply IH].
  intros Hin. by apply Ha, (remove_first_subset job).
Qed.

(** ** The store of jobs *)

Lemma deref_update_job_eq (job : JobRef) (f : Job.t → Job.t) (q : JobQueue.t) :
  JobQueue.deref (JobQueue.update_job job f q) job = f (JobQueue.deref q job).
Proof. unfold JobQueue.deref, JobQueue.update_job. simpl. apply lookup_total_insert_eq. Qed.

Lemma deref_update_job_ne (job other : JobRef) (f : Job.t → Job.t) (q : JobQueue.t) :
  job ≠ other →
  JobQueue.deref (JobQueue.update_job job f q) other = JobQueue.deref q other.
Proof.
  intros Hne. unfold JobQueue.deref, JobQueue.update_job. simpl.
  by apply lookup_total_insert_ne.
Qed.

Lemma add_init (id prompt : string) (b : Bounds) :
  JobQueue.add id prompt b JobQueue.init =
  JobQueue.mk {[ J1 := Job.init (Some id) JobKind.diffusion prompt b ]} [J1]
    None 0%Q [count_changed].
Proof. reflexivity. Qed.

Lemma set_results_diffusion (settings : Settings) (job : JobRef)
    (results : ImageCollection) (q : JobQueue.t) :
  Job.kind (JobQueue.deref q job) = JobKind.diffusion →
  JobQueue.set_results settings job results q =
  JobQueue.prune settings job
    (JobQueue.with_memory_usage (JobQueue._memory_usage q + size_mb results)%Q
       (JobQueue.update_job job (Job.set_results results) q)).
Proof.
  intros Hkind. unfold JobQueue.set_results.
  rewrite deref_update_job_eq. simpl. rewrite Hkind.
  destruct (decide (JobKind.diffusion = JobKind.diffusion)); done.
Qed.

Lemma set_results_other_kind (settings : Settings) (job : JobRef)
    (results : ImageCollection) (q : JobQueue.t) :
  Job.kind (JobQueue.deref q job) ≠ JobKind.diffusion →
  JobQueue.set_results settings job results q =
  (Ok (), JobQueue.update_job job (Job.set_results results) q).
Proof.
  intros Hkind. unfold JobQueue.set_results.
  rewrite deref_update_job_eq. simpl.
  destruct (decide (Job.kind (JobQueue.deref q job) = JobKind.diffusion)); done.
Qed.

(** ** The loop of [prune] *)

(** What one run of the loop does: it drops a prefix of the deque that does
    not contain [keep], subtracts the results of the dropped jobs, and ends
    either normally (within the budget, or with [keep] as the oldest entry) or
    with [IndexError] on an emptied deque that is still over the budget. *)
Lemma prune_loop_spec (settings : Settings) (h : gmap JobRef Job.t) (keep : JobRef)
    (entries : list JobRef) (usage : Q) :
  ∃ dropped kept usage' r,
    JobQueue.prune_loop settings h keep entries usage = (r, (kept, usage')) ∧
    entries = dropped ++ kept ∧
    (keep ∉ dropped) ∧
    Qeq (usage - usage') (sum_over (fun j => size_mb (Job._results (h !!! j))) dropped) ∧
    ((r = Ok () ∧
      ((usage' <= inject_Z (history_size settings))%Q ∨ head kept = Some keep)) ∨
     (r = Raise IndexError ∧ kept = [] ∧ (inject_Z (history_size settings) < usage')%Q)).
Proof.
  revert usage. induction entries as [|first rest IH]; intros usage; simpl.
  - destruct (Qgtb usage (inject_Z (history_size settings))) eqn:Hover.
    + exists [], [], usage, (Raise IndexError).
      apply Qgtb_true in Hover.
      split_and!; [done|done|apply not_elem_of_nil|simpl; lra|right; done].
    + exists [], [], usage, (Ok ()).
      apply Qgtb_false in Hover.
      split_and!; [done|done|apply not_elem_of_nil|simpl; lra|left; auto].
  - destruct (Qgtb usage (inject_Z (history_size settings))) eqn:Hover; simpl.
    + destruct (bool_decide (first ≠ keep)) eqn:Hkeep.
      * apply bool_decide_eq_true in Hkeep.
        destruct (IH (usage - size_mb (Job._results (h !!! first)))%Q)
          as (dropped & kept & usage' & r & Hrun & Happ & Hnot & Hsum & Hend).
        exists (first :: dropped), kept, usage', r.
        split_and!; [done|by rewrite Happ| |simpl; lra|done].
        rewrite not_elem_of_cons. split; [congruence|done].
      * apply bool_decide_eq_false in Hkeep.
        assert (first = keep) as -> by (destruct (decide (first = keep)); [done|contradiction]).
        exists [], (keep :: rest), usage, (Ok ()).
        split_and!; [done|done|apply not_elem_of_nil|simpl; lra|left; auto].
    + exists [], (first :: rest), usage, (Ok ()).
      apply Qgtb_false in Hover.
      split_and!; [done|done|apply not_elem_of_nil|simpl; lra|left; auto].
Qed.

Lemma prune_loop_cons (settings : Settings) (h : gmap JobRef Job.t)
    (keep first : JobRef) (rest : list JobRef) (usage : Q) :
  JobQueue.prune_loop settings h keep (first :: rest) usage =
  if Qgtb usage (inject_Z (history_size settings)) && bool_decide (first ≠ keep)
  then JobQueue.prune_loop settings h keep rest
         (usage - size_mb (Job._results (h !!! first)))%Q
  else (Ok (), (first :: rest, usage)).
Proof. reflexivity. Qed.

(** With [keep] in the deque the loop never reads an empty deque. *)
Lemma prune_loop_total (settings : Settings) (h : gmap JobRef Job.t) (keep : JobRef)
    (entries : list JobRef) (usage : Q) :
  keep ∈ entries →
  (JobQueue.prune_loop settings h keep entries usage).1 = Ok ().
Proof.
  intros Hin.
  destruct (prune_loop_spec settings h keep entries usage)
    as (dropped & kept & usage' & r & Hrun & Happ & Hnot & _ & Hend).
  rewrite Hrun. simpl. destruct Hend as [[-> _]|(_ & -> & _)]; [done|].
  rewrite app_nil_r in Happ. subst. contradiction.
Qed.

Lemma prune_unfold (settings : Settings) (keep : JobRef) (q : JobQueue.t) :
  JobQueue.prune settings keep q =
  let r := JobQueue.prune_loop settings (JobQueue.heap q) keep
             (JobQueue._entries q) (JobQueue._memory_usage q) in
  (r.1, JobQueue.with_memory_usage r.2.2 (JobQueue.with_entries r.2.1 q)).
Proof.
  unfold JobQueue.prune.
  destruct (JobQueue.prune_loop _ _ _ _ _) as [r [entries usage]]. done.
Qed.

(** The protected job at the head of the deque stops the loop at once. *)
Lemma prune_keep_oldest (settings : Settings) (keep : JobRef) (rest : list JobRef)
    (q : JobQueue.t) :
  JobQueue._entries q = keep :: rest →
  JobQueue.prune settings keep q = (Ok (), q).
Proof.
  intros Hentries. unfold JobQueue.prune. rewrite Hentries. simpl.
  rewrite (bool_decide_eq_false_2 (keep ≠ keep)) by (intros H; by apply H).
  rewrite andb_false_r. rewrite <- Hentries. by destruct q.
Qed.

(** ** [find] *)

Lemma find_spec (id : string) (q : JobQueue.t) (job : JobRef) :
  JobQueue.find id q = Some job →
  job ∈ JobQueue._entries q ∧ Job.id (JobQueue.deref q job) = Some id.
Proof.
  unfold JobQueue.find. intros H. apply find_some in H as [Hin Hid].
  split; [by apply list_elem_of_In|by apply bool_decide_eq_true in Hid].
Qed.

Lemma find_no_match (id : string) (q : JobQueue.t) :
  (∀ job, job ∈ JobQueue._entries q →
     bool_decide (Job.id (JobQueue.deref q job) = Some id) = false) →
  JobQueue.find id q = None.
Proof.
  unfold JobQueue.find. induction (JobQueue._entries q) as [|j l IH]; intros H; [done|].
  simpl. rewrite (H j) by left. apply IH. intros job Hjob. apply H. by right.
Qed.

(** C8: [find] is a total function of the queue and the id (its result is
    always a value, the not-found one or a job, never an exception), and it
    returns the not-found value [None] whenever no job of the queue carries
    the id. *)
Theorem find_unknown_id_is_none (q : JobQueue.t) (id : string) :
  (∀ job, job ∈ JobQueue._entries q → Job.id (JobQueue.deref q job) ≠ Some id) →
  JobQueue.find id q = None.
Proof.
  intros Hnone. apply find_no_match. intros job Hin.
  apply bool_decide_eq_false. by apply Hnone.
Qed.

Lemma find_unknown_id_is_none_witness :
  JobQueue.find "J7" (JobQueue.add "J1" "a cat" canvas JobQueue.init) = None.
Proof.
  apply find_unknown_id_is_none.
  intros job Hin. vm_compute in Hin.
  apply list_elem_of_In in Hin. destruct Hin as [<-|[]].
  vm_compute. discriminate.
Defined.

(** ** [prune] *)

(** C2, as the code has it: whatever [prune(keep)] drops is a run of oldest
    entries none of which is [keep], so [keep] is never removed; with [keep]
    in the queue it returns; and when it returns, the accumulator is within
    the budget or [keep] is the oldest entry left (younger jobs may still
    follow it). *)
Theorem prune_protects_keep (settings : Settings) (keep : JobRef) (q : JobQueue.t) :
  let r := JobQueue.prune settings keep q in
  (∃ dropped,
     JobQueue._entries q = dropped ++ JobQueue._entries r.2 ∧ keep ∉ dropped) ∧
  (keep ∈ JobQueue._entries q → r.1 = Ok ()) ∧
  (r.1 = Ok () →
   (JobQueue.memory_usage r.2 <= inject_Z (history_size settings))%Q
   ∨ head (JobQueue._entries r.2) = Some keep).
Proof.
  rewrite prune_unfold. simpl.
  destruct (prune_loop_spec settings (JobQueue.heap q) keep
              (JobQueue._entries q) (JobQueue._memory_usage q))
    as (dropped & kept & usage' & r & Hrun & Happ & Hnot & _ & Hend).
  split_and!.
  - exists dropped. rewrite Hrun. done.
  - apply prune_loop_total.
  - rewrite Hrun. simpl. unfold JobQueue.memory_usage. simpl.
    destruct Hend as [[_ Hend]|[-> _]]; [done|discriminate].
Qed.

(** The queue after [add J1; add J2; set_results(J1, 50 MB)] under a budget of
    40 MB. *)
Lemma prune_protects_keep_witness :
  let q := (JobQueue.set_results (budget 40) J1 (megabytes 50)
              (JobQueue.add "J2" "a dog" canvas
                 (JobQueue.add "J1" "a cat" canvas JobQueue.init))).2 in
  (JobQueue.prune (budget 40) J1 q).1 = Ok () ∧
  head (JobQueue._entries (JobQueue.prune (budget 40) J1 q).2) = Some J1.
Proof.
  intros q.
  destruct (prune_protects_keep (budget 40) J1 q) as (_ & Hok & Hend).
  assert (Hin : J1 ∈ JobQueue._entries q) by (vm_compute; left).
  split; [exact (Hok Hin)|].
  destruct (Hend (Hok Hin)) as [Hle|Hhead]; [|exact Hhead].
  vm_compute in Hle. destruct Hle. reflexivity.
Defined.

(** C2 as stated fails: in that queue [prune(J1)] returns with the
    accumulator at 50 MB, over the budget of 40 MB, and with J2 still queued
    behind J1. *)
Lemma prune_may_leave_younger_jobs :
  let q := (JobQueue.set_results (budget 40) J1 (megabytes 50)
              (JobQueue.add "J2" "a dog" canvas
                 (JobQueue.add "J1" "a cat" canvas JobQueue.init))).2 in
  let r := JobQueue.prune (budget 40) J1 q in
  r.1 = Ok () ∧
  ¬ ((JobQueue.memory_usage r.2 <= inject_Z (history_size (budget 40)))%Q
     ∨ JobQueue._entries r.2 = [J1]).
Proof.
  split; [vm_compute; reflexivity|].
  intros [Hle|Honly].
  - vm_compute in Hle. destruct Hle. reflexivity.
  - vm_compute in Honly. discriminate.
Qed.

(** C10, as the code has it: when the accumulator is over the budget and the
    oldest entry is not the protected job, [prune] evicts the oldest entry
    (nothing is asked of its state, its kind or its results) and subtracts the
    size of the results it holds at that moment; it then goes on from the
    shortened queue, so what remains in the end is a suffix of the younger
    entries. *)
Theorem prune_evicts_oldest (settings : Settings) (keep first : JobRef)
    (rest : list JobRef) (q : JobQueue.t) :
  JobQueue._entries q = first :: rest →
  first ≠ keep →
  (inject_Z (history_size settings) < JobQueue.memory_usage q)%Q →
  JobQueue.prune settings keep q =
    JobQueue.prune settings keep
      (JobQueue.with_memory_usage
         (JobQueue.memory_usage q
          - size_mb (Job.results (JobQueue.deref q first)))%Q
         (JobQueue.with_entries rest q))
  ∧ ∃ dropped, rest = dropped ++ JobQueue._entries (JobQueue.prune settings keep q).2.
Proof.
  intros Hentries Hne Hover.
  assert (Hstep :
    JobQueue.prune settings keep q =
    JobQueue.prune settings keep
      (JobQueue.with_memory_usage
         (JobQueue.memory_usage q
          - size_mb (Job.results (JobQueue.deref q first)))%Q
         (JobQueue.with_entries rest q))).
  { unfold JobQueue.prune at 1. rewrite Hentries. simpl.
    apply Qgtb_true in Hover. unfold JobQueue.memory_usage in Hover.
    rewrite Hover, (bool_decide_eq_true_2 _ Hne). simpl.
    unfold JobQueue.prune. simpl.
    unfold JobQueue.memory_usage, Job.results, JobQueue.deref.
    destruct (JobQueue.prune_loop _ _ _ _ _) as [r [entries usage]]. done. }
  split; [exact Hstep|].
  rewrite Hstep. rewrite prune_unfold. simpl.
  destruct (prune_loop_spec settings (JobQueue.heap q) keep rest
              (JobQueue.memory_usage q
               - size_mb (Job.results (JobQueue.deref q first)))%Q)
    as (dropped & kept & usage' & r & Hrun & Happ & _).
  exists dropped. rewrite Hrun. done.
Qed.

(** The state in which [set_results(J2, 50 MB)] calls [prune]: J1 queued and
    without results, J2 behind it holding the 50 MB just attached. The queued
    J1 goes. *)
Lemma prune_evicts_oldest_witness :
  let q0 := JobQueue.add "J2" "a dog" canvas
              (JobQueue.add "J1" "a cat" canvas JobQueue.init) in
  let q := JobQueue.with_memory_usage
             (JobQueue._memory_usage q0 + size_mb (megabytes 50))%Q
             (JobQueue.update_job J2 (Job.set_results (megabytes 50)) q0) in
  Job.state (JobQueue.deref q J1) = State.queued ∧
  ∃ dropped, [J2] = dropped ++ JobQueue._entries (JobQueue.prune (budget 40) J2 q).2.
Proof.
  intros q0 q. split; [reflexivity|].
  refine (proj2 (prune_evicts_oldest (budget 40) J2 J1 [J2] q _ _ _)).
  - reflexivity.
  - discriminate.
  - vm_compute. reflexivity.
Defined.

(** C10 as stated fails when the oldest entry is the protected job: with J1
    alone in the queue, holding 50 MB under a budget of 40 MB, [prune(J1)]
    leaves it where it is and the accumulator as it was. *)
Lemma prune_spares_protected_oldest :
  let q := (JobQueue.set_results (budget 40) J1 (megabytes 50)
              (JobQueue.add "J1" "a cat" canvas JobQueue.init)).2 in
  (inject_Z (history_size (budget 40)) < JobQueue.memory_usage q)%Q ∧
  head (JobQueue._entries q) = Some J1 ∧
  JobQueue._entries (JobQueue.prune (budget 40) J1 q).2 = [J1] ∧
  (JobQueue.memory_usage (JobQueue.prune (budget 40) J1 q).2 == 50)%Q.
Proof.
  split_and!; vm_compute; reflexivity.
Qed.

(** C9: a client can empty the queue while the accumulator stays over the
    budget (add a diffusion job, attach results larger than the budget, remove
    the job); [prune] then reads the oldest entry of an empty deque and
    raises [IndexError], whatever job it is asked to keep. *)
Theorem prune_raises_on_emptied_queue (settings : Settings) (id prompt : string)
    (b : Bounds) (results : ImageCollection) (keep : JobRef) :
  (inject_Z (history_size settings) < size_mb results)%Q →
  let q1 := JobQueue.add id prompt b JobQueue.init in
  ∃ job q2 q3,
    JobQueue.find id q1 = Some job ∧
    JobQueue.set_results settings job results q1 = (Ok (), q2) ∧
    JobQueue.remove job q2 = (Ok (), q3) ∧
    JobQueue._entries q3 = [] ∧
    (inject_Z (history_size settings) < JobQueue.memory_usage q3)%Q ∧
    JobQueue.prune settings keep q3 = (Raise IndexError, q3).
Proof.
  intros Hbig q1. unfold q1. rewrite add_init.
  set (q2 := JobQueue.with_memory_usage (0 + size_mb results)%Q
               (JobQueue.update_job J1 (Job.set_results results)
                  (JobQueue.mk {[ J1 := Job.init (Some id) JobKind.diffusion prompt b ]}
                     [J1] None 0%Q [count_changed]))).
  exists J1, q2, (JobQueue.emit count_changed (JobQueue.with_entries [] q2)).
  split_and!.
  - unfold JobQueue.find, JobQueue.deref. simpl.
    rewrite lookup_total_singleton. simpl. by rewrite bool_decide_eq_true_2.
  - rewrite set_results_diffusion.
    + by apply (prune_keep_oldest settings J1 []).
    + unfold JobQueue.deref. simpl. by rewrite lookup_total_singleton.
  - reflexivity.
  - reflexivity.
  - unfold JobQueue.memory_usage. simpl. lra.
  - unfold JobQueue.prune. simpl.
    rewrite (proj2 (Qgtb_true _ _)) by lra. reflexivity.
Qed.

Lemma prune_raises_on_emptied_queue_witness :
  ∃ q3, JobQueue._entries q3 = [] ∧
        JobQueue.prune (budget 40) J1 q3 = (Raise IndexError, q3).
Proof.
  destruct (prune_raises_on_emptied_queue (budget 40) "J1" "a cat" canvas
              (megabytes 50) J1) as (job & q2 & q3 & _ & _ & _ & Hempty & _ & Hraise).
  - vm_compute. reflexivity.
  - exists q3. split; assumption.
Defined.

(** ** The eviction scenario *)

(** C3: under a budget of 40 MB, attaching 50 MB to the freshly added J1 keeps
    J1 (it is the protected job) with the accumulator at 50 MB; adding J2 and
    attaching 10 MB to it evicts J1, which is no longer protected, and leaves
    J2 alone in the queue with the accumulator at 10 MB. *)
Theorem protection_lasts_one_call (id1 id2 prompt1 prompt2 : string) (b1 b2 : Bounds)
    (r1 r2 : ImageCollection) :
  id1 ≠ id2 →
  (size_mb r1 == 50)%Q →
  (size_mb r2 == 10)%Q →
  let q1 := JobQueue.add id1 prompt1 b1 JobQueue.init in
  ∃ j1 j2 q2 q4,
    JobQueue.find id1 q1 = Some j1 ∧
    JobQueue.set_results (budget 40) j1 r1 q1 = (Ok (), q2) ∧
    JobQueue._entries q2 = [j1] ∧
    (JobQueue.memory_usage q2 == 50)%Q ∧
    let q3 := JobQueue.add id2 prompt2 b2 q2 in
    JobQueue.find id2 q3 = Some j2 ∧
    JobQueue.set_results (budget 40) j2 r2 q3 = (Ok (), q4) ∧
    (j1 ∉ JobQueue._entries q4) ∧
    JobQueue._entries q4 = [j2] ∧
    (JobQueue.memory_usage q4 == 10)%Q.
Proof.
  intros Hid H50 H10 q1. unfold q1. rewrite add_init.
  set (q0 := JobQueue.mk {[ J1 := Job.init (Some id1) JobKind.diffusion prompt1 b1 ]}
               [J1] None 0%Q [count_changed]).
  set (q2 := JobQueue.with_memory_usage (0 + size_mb r1)%Q
               (JobQueue.update_job J1 (Job.set_results r1) q0)).
  set (q3 := JobQueue.add id2 prompt2 b2 q2).
  assert (Hd1 : JobQueue.deref q3 J1
                = Job.set_results r1 (Job.init (Some id1) JobKind.diffusion prompt1 b1)).
  { unfold JobQueue.deref, q3, JobQueue.add. simpl.
    rewrite lookup_total_insert_ne by discriminate.
    rewrite lookup_total_insert_eq. unfold JobQueue.deref. simpl.
    by rewrite lookup_total_singleton. }
  assert (Hd2 : JobQueue.deref q3 J2 = Job.init (Some id2) JobKind.diffusion prompt2 b2).
  { unfold JobQueue.deref, q3, JobQueue.add. simpl.
    exact (lookup_total_insert_eq _ J2 _). }
  set (q3' := JobQueue.with_memory_usage (0 + size_mb r1 + size_mb r2)%Q
                (JobQueue.update_job J2 (Job.set_results r2) q3)).
  exists J1, J2, q2,
    (JobQueue.with_memory_usage (0 + size_mb r1 + size_mb r2 - size_mb r1)%Q
       (JobQueue.with_entries [J2] q3')).
  split_and!.
  - unfold JobQueue.find, JobQueue.deref. simpl.
    rewrite lookup_total_singleton. simpl. by rewrite bool_decide_eq_true_2.
  - rewrite set_results_diffusion.
    + by apply (prune_keep_oldest (budget 40) J1 []).
    + unfold JobQueue.deref. simpl. by rewrite lookup_total_singleton.
  - reflexivity.
  - unfold JobQueue.memory_usage. simpl. lra.
  - fold q3. unfold JobQueue.find.
    change (JobQueue._entries q3) with [J1; J2]. simpl.
    rewrite Hd1, Hd2. simpl.
    rewrite bool_decide_eq_false_2 by congruence.
    by rewrite bool_decide_eq_true_2.
  - fold q3. rewrite set_results_diffusion by (by rewrite Hd2).
    change (JobQueue._memory_usage q3) with (0 + size_mb r1)%Q. fold q3'.
    unfold JobQueue.prune.
    change (JobQueue._entries q3') with [J1; J2].
    change (JobQueue._memory_usage q3') with (0 + size_mb r1 + size_mb r2)%Q.
    assert (Hr1 : Job._results (JobQueue.heap q3' !!! J1) = r1).
    { change (JobQueue.heap q3' !!! J1)
        with (JobQueue.deref (JobQueue.update_job J2 (Job.set_results r2) q3) J1).
      rewrite deref_update_job_ne by discriminate. by rewrite Hd1. }
    rewrite prune_loop_cons, Hr1.
    change (inject_Z (history_size (budget 40))) with 40%Q.
    rewrite (proj2 (Qgtb_true _ _)) by lra.
    rewrite bool_decide_eq_true_2 by discriminate.
    rewrite prune_loop_cons.
    change (inject_Z (history_size (budget 40))) with 40%Q.
    rewrite (proj2 (Qgtb_false _ _)) by lra.
    reflexivity.
  - simpl. rewrite list_elem_of_singleton. discriminate.
  - reflexivity.
  - unfold JobQueue.memory_usage. simpl. lra.
Qed.

Lemma protection_lasts_one_call_witness :
  let q1 := JobQueue.add "J1" "a cat" canvas JobQueue.init in
  ∃ j1 j2 q2 q4,
    JobQueue.find "J1" q1 = Some j1 ∧
    JobQueue.set_results (budget 40) j1 (megabytes 50) q1 = (Ok (), q2) ∧
    JobQueue._entries q2 = [j1] ∧
    (JobQueue.memory_usage q2 == 50)%Q ∧
    let q3 := JobQueue.add "J2" "a dog" canvas q2 in
    JobQueue.find "J2" q3 = Some j2 ∧
    JobQueue.set_results (budget 40) j2 (megabytes 10) q3 = (Ok (), q4) ∧
    (j1 ∉ JobQueue._entries q4) ∧
    JobQueue._entries q4 = [j2] ∧
    (JobQueue.memory_usage q4 == 10)%Q.
Proof.
  apply (protection_lasts_one_call "J1" "J2" "a cat" "a dog" canvas canvas
           (megabytes 50) (megabytes 10)).
  - discriminate.
  - reflexivity.
  - reflexivity.
Defined.

(** ** The memory accumulator *)

Lemma counted_mb_deref (q q' : JobQueue.t) (j : JobRef) :
  JobQueue.deref q' j = JobQueue.deref q j → counted_mb q' j = counted_mb q j.
Proof. unfold counted_mb. by intros ->. Qed.

Lemma counted_mb_diffusion (q : JobQueue.t) (j : JobRef) :
  Job.kind (JobQueue.deref q j) = JobKind.diffusion →
  counted_mb q j = size_mb (Job.results (JobQueue.deref q j)).
Proof.
  intros Hkind. unfold counted_mb.
  destruct (decide (Job.kind (JobQueue.deref q j) = JobKind.diffusion)); done.
Qed.

Lemma counted_mb_no_bytes (q : JobQueue.t) (j : JobRef) :
  collection_size (Job.results (JobQueue.deref q j)) = 0%N → (counted_mb q j == 0)%Q.
Proof.
  intros Hsize. unfold counted_mb.
  destruct (decide (Job.kind (JobQueue.deref q j) = JobKind.diffusion));
    [by apply size_mb_zero|reflexivity].
Qed.

Lemma counted_mb_other_kind (q : JobQueue.t) (j : JobRef) :
  Job.kind (JobQueue.deref q j) ≠ JobKind.diffusion → counted_mb q j = 0%Q.
Proof.
  intros Hkind. unfold counted_mb.
  destruct (decide (Job.kind (JobQueue.deref q j) = JobKind.diffusion)); done.
Qed.

(** What [prune] subtracts for a job is what the job counts for, as long as
    the jobs of other kinds hold no bytes. *)
Lemma counted_mb_held (q : JobQueue.t) (j : JobRef) :
  is_diffusion q j || holds_no_bytes q j = true →
  (size_mb (Job._results (JobQueue.deref q j)) == counted_mb q j)%Q.
Proof.
  intros Hj. destruct (decide (Job.kind (JobQueue.deref q j) = JobKind.diffusion))
    as [Hkind|Hkind].
  - rewrite counted_mb_diffusion by done. reflexivity.
  - rewrite counted_mb_other_kind by done.
    unfold is_diffusion in Hj. rewrite (bool_decide_eq_false_2 _ Hkind) in Hj.
    apply bool_decide_eq_true in Hj. by apply size_mb_zero.
Qed.

Lemma accounted_init : accounted JobQueue.init.
Proof.
  split_and!; simpl.
  - apply NoDup_nil_2.
  - intros j Hj. by apply elem_of_nil in Hj.
  - reflexivity.
Qed.

(** A job that is new to the store and holds no results joins the queue. *)
Lemma accounted_push (q q' : JobQueue.t) (r : JobRef) :
  accounted q →
  r ∉ dom (JobQueue.heap q) →
  JobQueue._entries q' = JobQueue._entries q ++ [r] →
  JobQueue.memory_usage q' = JobQueue.memory_usage q →
  (∀ j, j ∈ dom (JobQueue.heap q) ∨ j = r → j ∈ dom (JobQueue.heap q')) →
  (∀ j, j ≠ r → JobQueue.deref q' j = JobQueue.deref q j) →
  Job.results (JobQueue.deref q' r) = [] →
  accounted q'.
Proof.
  intros (Hnd & Hdom & Hmem) Hfresh Hentries Husage Hdom' Hold Hnew.
  assert (Hout : r ∉ JobQueue._entries q) by (intros Hin; by apply Hfresh, Hdom).
  split_and!.
  - rewrite Hentries. apply NoDup_app. split_and!; [done| |apply NoDup_singleton].
    intros j Hj Hr. apply list_elem_of_singleton in Hr. by subst.
  - intros j Hj. rewrite Hentries in Hj. apply Hdom'.
    apply elem_of_app in Hj as [Hj|Hj]; [left; by apply Hdom|right].
    by apply list_elem_of_singleton in Hj.
  - unfold diffusion_results_mb. rewrite Hentries, sum_over_app, Husage. simpl.
    rewrite (sum_over_ext (counted_mb q') (counted_mb q)).
    + rewrite (counted_mb_no_bytes q' r) by (by rewrite Hnew).
      unfold diffusion_results_mb in Hmem. lra.
    + intros j Hj. rewrite (counted_mb_deref q); [reflexivity|].
      apply Hold. intros ->. done.
Qed.

Lemma accounted_add (id prompt : string) (b : Bounds) (q : JobQueue.t) :
  accounted q → accounted (JobQueue.add id prompt b q).
Proof.
  intros Hacc.
  apply (accounted_push q _ (fresh (dom (JobQueue.heap q))) Hacc);
    [apply is_fresh|reflexivity|reflexivity| | |].
  - intros j Hj. unfold JobQueue.add. simpl. rewrite dom_insert_L.
    destruct Hj as [Hj| ->]; set_solver.
  - intros j Hj. unfold JobQueue.deref, JobQueue.add. simpl.
    by apply lookup_total_insert_ne.
  - unfold JobQueue.deref, JobQueue.add. simpl. by rewrite lookup_total_insert_eq.
Qed.

Lemma accounted_add_control (control : ControlRef) (text : string) (b : Bounds)
    (q : JobQueue.t) :
  accounted q → accounted (JobQueue.add_control control text b q).2.
Proof.
  intros Hacc.
  apply (accounted_push q _ (fresh (dom (JobQueue.heap q))) Hacc);
    [apply is_fresh|reflexivity|reflexivity| | |].
  - intros j Hj. unfold JobQueue.add_control. simpl. rewrite !dom_insert_L.
    destruct Hj as [Hj| ->]; set_solver.
  - intros j Hj. unfold JobQueue.deref, JobQueue.add_control. simpl.
    rewrite lookup_total_insert_ne by done. by apply lookup_total_insert_ne.
  - unfold JobQueue.deref, JobQueue.add_control. simpl.
    rewrite lookup_total_insert_eq. unfold JobQueue.deref. simpl.
    by rewrite lookup_total_insert_eq.
Qed.

Lemma accounted_add_upscale (text : string) (b : Bounds) (q : JobQueue.t) :
  accounted q → accounted (JobQueue.add_upscale text b q).2.
Proof.
  intros Hacc.
  apply (accounted_push q _ (fresh (dom (JobQueue.heap q))) Hacc);
    [apply is_fresh|reflexivity|reflexivity| | |].
  - intros j Hj. unfold JobQueue.add_upscale. simpl. rewrite dom_insert_L.
    destruct Hj as [Hj| ->]; set_solver.
  - intros j Hj. unfold JobQueue.deref, JobQueue.add_upscale. simpl.
    by apply lookup_total_insert_ne.
  - unfold JobQueue.deref, JobQueue.add_upscale. simpl. by rewrite lookup_total_insert_eq.
Qed.

Lemma accounted_add_live (prompt : string) (b : Bounds) (q : JobQueue.t) :
  accounted q → accounted (JobQueue.add_live prompt b q).2.
Proof.
  intros Hacc.
  apply (accounted_push q _ (fresh (dom (JobQueue.heap q))) Hacc);
    [apply is_fresh|reflexivity|reflexivity| | |].
  - intros j Hj. unfold JobQueue.add_live. simpl. rewrite dom_insert_L.
    destruct Hj as [Hj| ->]; set_solver.
  - intros j Hj. unfold JobQueue.deref, JobQueue.add_live. simpl.
    by apply lookup_total_insert_ne.
  - unfold JobQueue.deref, JobQueue.add_live. simpl. by rewrite lookup_total_insert_eq.
Qed.

Lemma accounted_remove (job : JobRef) (q : JobQueue.t) :
  accounted q →
  negb (is_diffusion q job) || holds_no_bytes q job = true →
  accounted (JobQueue.remove job q).2.
Proof.
  intros (Hnd & Hdom & Hmem) Hjob. unfold JobQueue.remove.
  destruct (decide (job ∈ JobQueue._entries q)) as [Hin|Hout]; [|done].
  assert (Hzero : (counted_mb q job == 0)%Q).
  { apply orb_true_iff in Hjob as [Hkind|Hsize].
    - apply negb_true_iff, bool_decide_eq_false in Hkind.
      by rewrite counted_mb_other_kind.
    - apply bool_decide_eq_true in Hsize. by apply counted_mb_no_bytes. }
  split_and!; simpl.
  - by apply remove_first_NoDup.
  - intros j Hj. apply Hdom. by apply (remove_first_subset job).
  - unfold diffusion_results_mb. simpl.
    rewrite (sum_over_ext _ (counted_mb q)) by (intros; reflexivity).
    rewrite sum_over_remove_first by done. rewrite Hzero.
    unfold JobQueue.memory_usage in *. simpl.
    unfold diffusion_results_mb in Hmem. lra.
Qed.

Lemma accounted_prune (settings : Settings) (keep : JobRef) (q : JobQueue.t) :
  accounted q →
  (∀ j, j ∈ JobQueue._entries q → is_diffusion q j || holds_no_bytes q j = true) →
  accounted (JobQueue.prune settings keep q).2.
Proof.
  intros (Hnd & Hdom & Hmem) Hidle. rewrite prune_unfold. simpl.
  destruct (prune_loop_spec settings (JobQueue.heap q) keep
              (JobQueue._entries q) (JobQueue._memory_usage q))
    as (dropped & kept & usage' & r & Hrun & Happ & _ & Hsum & _).
  rewrite Hrun. simpl. rewrite Happ in Hnd.
  apply NoDup_app in Hnd as (_ & _ & Hnd).
  assert (Hsub : ∀ j, j ∈ kept → j ∈ JobQueue._entries q).
  { intros j Hj. rewrite Happ. apply elem_of_app. by right. }
  split_and!; simpl.
  - done.
  - intros j Hj. by apply Hdom, Hsub.
  - unfold diffusion_results_mb, JobQueue.memory_usage in *. simpl.
    rewrite Happ, sum_over_app in Hmem.
    rewrite (sum_over_ext _ (counted_mb q) dropped) in Hsum.
    + rewrite (sum_over_ext _ (counted_mb q) kept) by (intros; reflexivity). lra.
    + intros j Hj. apply (counted_mb_held q j), Hidle.
      rewrite Happ. apply elem_of_app. by left.
Qed.

Lemma accounted_set_results (settings : Settings) (job : JobRef)
    (results : ImageCollection) (q : JobQueue.t) :
  accounted q →
  disciplined q (op_set_results job results) = true →
  accounted (JobQueue.set_results settings job results q).2.
Proof.
  intros (Hnd & Hdom & Hmem) Hop. simpl in Hop.
  set (q' := JobQueue.update_job job (Job.set_results results) q).
  assert (Hsame : ∀ j, j ≠ job → JobQueue.deref q' j = JobQueue.deref q j).
  { intros j Hj. by apply deref_update_job_ne. }
  assert (Hjob : JobQueue.deref q' job = Job.set_results results (JobQueue.deref q job))
    by apply deref_update_job_eq.
  assert (Hdom' : ∀ j, j ∈ JobQueue._entries q → j ∈ dom (JobQueue.heap q')).
  { intros j Hj. simpl. rewrite dom_insert_L. apply elem_of_union_r. by apply Hdom. }
  destruct (decide (Job.kind (JobQueue.deref q job) = JobKind.diffusion)) as [Hkind|Hkind].
  - unfold is_diffusion in Hop at 1. rewrite (bool_decide_eq_true_2 _ Hkind) in Hop.
    simpl in Hop. apply andb_true_iff in Hop as [Hop Hidle].
    apply andb_true_iff in Hop as [Hin Hsize].
    apply bool_decide_eq_true in Hin. apply bool_decide_eq_true in Hsize.
    rewrite set_results_diffusion by done. fold q'.
    apply accounted_prune.
    + split_and!; simpl; [done|done|].
      unfold diffusion_results_mb, JobQueue.memory_usage in *. simpl.
      rewrite (sum_over_ext _ (counted_mb q') (JobQueue._entries q))
        by (intros; reflexivity).
      rewrite (sum_over_update (counted_mb q) (counted_mb q') job); [|done|done|].
      * rewrite (counted_mb_no_bytes q job) by done.
        rewrite (counted_mb_diffusion q' job) by (by rewrite Hjob).
        rewrite Hjob. simpl. lra.
      * intros j Hj. rewrite (counted_mb_deref q) by (by apply Hsame). reflexivity.
    + intros j Hj. simpl in Hj.
      change (is_diffusion q' j || holds_no_bytes q' j = true).
      destruct (decide (j = job)) as [->|Hne].
      * unfold is_diffusion. rewrite Hjob. simpl.
        by rewrite (bool_decide_eq_true_2 _ Hkind).
      * unfold is_diffusion, holds_no_bytes. rewrite Hsame by done.
        rewrite forallb_forall in Hidle. apply Hidle. by apply list_elem_of_In.
  - rewrite set_results_other_kind by done. fold q'.
    split_and!; simpl; [done|done|].
    unfold diffusion_results_mb, JobQueue.memory_usage in *. simpl.
    rewrite (sum_over_ext (counted_mb q') (counted_mb q)); [done|].
    intros j Hj. destruct (decide (j = job)) as [->|Hne].
    + rewrite (counted_mb_other_kind q job) by done.
      rewrite (counted_mb_other_kind q' job) by (by rewrite Hjob). reflexivity.
    + rewrite (counted_mb_deref q) by (by apply Hsame). reflexivity.
Qed.

Lemma accounted_run (settings : Settings) (ops : list QueueOp) (q : JobQueue.t) :
  accounted q →
  disciplined_run settings ops q = true →
  accounted (run_ops settings ops q).
Proof.
  revert q. induction ops as [|op ops IH]; intros q Hacc Hrun; [done|].
  simpl in Hrun. apply andb_true_iff in Hrun as [Hop Hrun].
  simpl. apply IH; [|done].
  destruct op as [id prompt b|control text b|text b|prompt b|job|job results].
  - by apply accounted_add.
  - by apply accounted_add_control.
  - by apply accounted_add_upscale.
  - by apply accounted_add_live.
  - by apply accounted_remove.
  - by apply accounted_set_results.
Qed.

(** C1, as the code has it: over every sequence of [add], [add_control],
    [add_upscale], [add_live], [remove] and [set_results] calls in which no
    diffusion job is removed while it holds result bytes, and results are
    attached to a diffusion job only while it is in the queue and holds no
    result bytes yet and no job of another kind in the queue holds result
    bytes, the accumulator equals the sum of the result sizes (in MB) of the
    diffusion jobs in the queue. *)
Theorem accumulator_is_sum_of_results (settings : Settings) (ops : list QueueOp) :
  disciplined_run settings ops JobQueue.init = true →
  (JobQueue.memory_usage (run_ops settings ops JobQueue.init)
   == diffusion_results_mb (run_ops settings ops JobQueue.init))%Q.
Proof.
  intros Hrun.
  destruct (accounted_run settings ops JobQueue.init accounted_init Hrun)
    as (_ & _ & Hmem).
  exact Hmem.
Qed.

(** A run with jobs of two kinds, as [Model] drives the queue: the upscale
    job gets its image and leaves before the next results arrive; the second
    diffusion job evicts the first. *)
Lemma accumulator_is_sum_of_results_witness :
  let ops := [op_add "J1" "a cat" canvas;
              op_add_upscale "upscale" canvas;
              op_set_results 1%nat (megabytes 30); op_remove 1%nat;
              op_set_results J1 (megabytes 30);
              op_add "J3" "a dog" canvas; op_set_results 2%nat (megabytes 20);
              op_add "J4" "a fox" canvas; op_remove 3%nat] in
  (JobQueue.memory_usage (run_ops (budget 40) ops JobQueue.init)
   == diffusion_results_mb (run_ops (budget 40) ops JobQueue.init))%Q.
Proof.
  intros ops. apply (accumulator_is_sum_of_results (budget 40) ops).
  vm_compute. reflexivity.
Defined.

(** C1 as stated fails: [remove] takes the job out of the queue and leaves
    the accumulator alone. After [add J1; set_results(J1, 50 MB); remove(J1)]
    the queue is empty and the accumulator is 50 MB. *)
Lemma remove_leaves_accumulator :
  let q := run_ops (budget 40)
             [op_add "J1" "a cat" canvas; op_set_results J1 (megabytes 50);
              op_remove J1] JobQueue.init in
  JobQueue._entries q = [] ∧
  (JobQueue.memory_usage q == 50)%Q ∧
  (diffusion_results_mb q == 0)%Q ∧
  ¬ (JobQueue.memory_usage q == diffusion_results_mb q)%Q.
Proof.
  split_and!; [reflexivity|reflexivity|reflexivity|].
  vm_compute. discriminate.
Qed.

(** Three more ways past the accounting. Results attached a second time are
    added in full although they replace the first. *)
Lemma set_results_twice_counts_twice :
  let q := run_ops (budget 40)
             [op_add "J1" "a cat" canvas; op_set_results J1 (megabytes 10);
              op_set_results J1 (megabytes 10)] JobQueue.init in
  (JobQueue.memory_usage q == 20)%Q ∧ (diffusion_results_mb q == 10)%Q.
Proof. split; reflexivity. Qed.

(** Results attached to a job that left the queue are added although nothing
    in the queue holds them; over the budget, the pruning that follows runs
    into the empty deque. *)
Lemma set_results_after_remove_counts :
  let q := run_ops (budget 40)
             [op_add "J1" "a cat" canvas; op_remove J1] JobQueue.init in
  let r := JobQueue.set_results (budget 40) J1 (megabytes 50) q in
  r.1 = Raise IndexError ∧
  JobQueue._entries r.2 = [] ∧
  (JobQueue.memory_usage r.2 == 50)%Q.
Proof. split_and!; reflexivity. Qed.

(** The pruning that follows the results of a diffusion job evicts an older
    job of another kind and subtracts the bytes it holds, which were never
    added: with an upscale job holding 30 MB ahead of a diffusion job that
    gets 50 MB on a budget of 40 MB, the accumulator ends at 20 MB while the
    diffusion job in the queue holds 50 MB. *)
Lemma prune_subtracts_uncounted_results :
  let q := run_ops (budget 40)
             [op_add_upscale "upscale" canvas; op_set_results J1 (megabytes 30);
              op_add "J2" "a cat" canvas; op_set_results J2 (megabytes 50)]
             JobQueue.init in
  JobQueue._entries q = [J2] ∧
  (JobQueue.memory_usage q == 20)%Q ∧ (diffusion_results_mb q == 50)%Q.
Proof. split_and!; reflexivity. Qed.

(** ** [handle_message] *)



(** C7: an [interrupted] message for a job of the queue marks that job
    cancelled and resets the progress to 0; the error message stays as it
    was. *)
Theorem handle_message_interrupted (settings : Settings) (host : Host)
    (message : ClientMessage.t) (m : Model.t) (job : JobRef) :
  JobQueue.find (ClientMessage.job_id message) (Model.jobs m) = Some job →
  ClientMessage.event message = ClientEvent.interrupted →
  let r := Model.handle_message settings host message m in
  r.1 = Ok () ∧
  Job.state (JobQueue.deref (Model.jobs r.2) job) = State.cancelled ∧
  Model.progress r.2 = 0%Q ∧
  Model.error r.2 = Model.error m.
Proof.
  intros Hfind Hevent r. subst r. unfold Model.handle_message.
  rewrite Hfind, Hevent. simpl. split_and!; [done| |done|done].
  by rewrite deref_update_job_eq.
Qed.

Lemma handle_message_interrupted_witness :
  let r := Model.handle_message (budget 40) (host_without_selection "J1")
             (server_message ClientEvent.interrupted "J1" None) model_with_job in
  r.1 = Ok () ∧
  Job.state (JobQueue.deref (Model.jobs r.2) J1) = State.cancelled ∧
  Model.progress r.2 = 0%Q ∧
  Model.error r.2 = Model.error model_with_job.
Proof.
  apply (handle_message_interrupted (budget 40) (host_without_selection "J1")
           (server_message ClientEvent.interrupted "J1" None) model_with_job J1).
  - reflexivity.
  - reflexivity.
Defined.

(** ** Results and the finished state *)

Lemma results_only_when_finished_weaken (job : JobRef) (q : JobQueue.t) :
  results_only_when_finished q → results_only_when_finished_except job q.
Proof. intros HR j Hj _. by apply HR. Qed.

(** The predicate looks at the entries and at the objects behind them. *)
Lemma results_only_when_finished_sub (q q' : JobQueue.t) :
  (∀ j, j ∈ JobQueue._entries q' → j ∈ JobQueue._entries q) →
  JobQueue.heap q' = JobQueue.heap q →
  results_only_when_finished q → results_only_when_finished q'.
Proof.
  intros Hsub Hheap HR j Hj. unfold JobQueue.deref. rewrite Hheap.
  by apply HR, Hsub.
Qed.

Lemma results_except_sub (job : JobRef) (q q' : JobQueue.t) :
  (∀ j, j ∈ JobQueue._entries q' → j ∈ JobQueue._entries q) →
  JobQueue.heap q' = JobQueue.heap q →
  results_only_when_finished_except job q →
  results_only_when_finished_except job q'.
Proof.
  intros Hsub Hheap HR j Hj. unfold JobQueue.deref. rewrite Hheap.
  by apply HR, Hsub.
Qed.

Lemma prune_entries_sub (settings : Settings) (keep : JobRef) (q : JobQueue.t) :
  (∀ j, j ∈ JobQueue._entries (JobQueue.prune settings keep q).2 →
        j ∈ JobQueue._entries q)
  ∧ JobQueue.heap (JobQueue.prune settings keep q).2 = JobQueue.heap q.
Proof.
  rewrite prune_unfold. simpl.
  destruct (prune_loop_spec settings (JobQueue.heap q) keep
              (JobQueue._entries q) (JobQueue._memory_usage q))
    as (dropped & kept & usage' & r & Hrun & Happ & _).
  rewrite Hrun. simpl. split; [|done].
  intros j Hj. rewrite Happ. apply elem_of_app. by right.
Qed.

Lemma remove_entries_sub (job : JobRef) (q : JobQueue.t) :
  (∀ j, j ∈ JobQueue._entries (JobQueue.remove job q).2 → j ∈ JobQueue._entries q)
  ∧ JobQueue.heap (JobQueue.remove job q).2 = JobQueue.heap q.
Proof.
  unfold JobQueue.remove.
  destruct (decide (job ∈ JobQueue._entries q)); simpl; [|done].
  split; [|done]. intros j. apply remove_first_subset.
Qed.

Lemma results_add (id prompt : string) (b : Bounds) (q : JobQueue.t) :
  results_only_when_finished q →
  results_only_when_finished (JobQueue.add id prompt b q).
Proof.
  intros HR j Hj.
  set (r := fresh (dom (JobQueue.heap q))).
  destruct (decide (j = r)) as [->|Hne].
  - unfold JobQueue.deref, JobQueue.add. simpl. fold r.
    rewrite lookup_total_insert_eq. done.
  - assert (Hsame : JobQueue.deref (JobQueue.add id prompt b q) j = JobQueue.deref q j).
    { unfold JobQueue.deref, JobQueue.add. simpl. fold r.
      by apply lookup_total_insert_ne. }
    rewrite Hsame. apply HR.
    change (j ∈ JobQueue._entries q ++ [r]) in Hj.
    apply elem_of_app in Hj as [Hj|Hj]; [done|].
    by apply list_elem_of_singleton in Hj.
Qed.

(** Attaching results leaves every other job as it was. *)
Lemma results_set_results_except (settings : Settings) (job : JobRef)
    (results : ImageCollection) (q : JobQueue.t) :
  results_only_when_finished_except job q →
  results_only_when_finished_except job
    (JobQueue.set_results settings job results q).2.
Proof.
  intros HR.
  assert (Hupd : results_only_when_finished_except job
                   (JobQueue.update_job job (Job.set_results results) q)).
  { intros j Hj Hne. rewrite deref_update_job_ne by done. by apply HR. }
  destruct (decide (Job.kind (JobQueue.deref q job) = JobKind.diffusion)) as [Hk|Hk].
  - rewrite set_results_diffusion by done.
    destruct (prune_entries_sub settings job
                (JobQueue.with_memory_usage
                   (JobQueue._memory_usage q + size_mb results)%Q
                   (JobQueue.update_job job (Job.set_results results) q)))
      as [Hsub Hheap].
    by apply (results_except_sub job _ _ Hsub Hheap).
  - by rewrite set_results_other_kind.
Qed.

Lemma results_notify_finished (job : JobRef) (q : JobQueue.t) :
  results_only_when_finished_except job q →
  results_only_when_finished (JobQueue.notify_finished job q).
Proof.
  intros HR j Hj.
  change (JobQueue.deref (JobQueue.notify_finished job q) j)
    with (JobQueue.deref (JobQueue.update_job job (Job.set_state State.finished) q) j).
  destruct (decide (j = job)) as [->|Hne].
  - by rewrite deref_update_job_eq.
  - rewrite deref_update_job_ne by done. by apply HR.
Qed.

Lemma results_set_results (settings : Settings) (job : JobRef)
    (results : ImageCollection) (q : JobQueue.t) :
  results_only_when_finished q →
  results = [] ∨ Job.state (JobQueue.deref q job) = State.finished →
  results_only_when_finished (JobQueue.set_results settings job results q).2.
Proof.
  intros HR Hside j Hj.
  destruct (decide (j = job)) as [->|Hne].
  - assert (Hjob : JobQueue.deref (JobQueue.set_results settings job results q).2 job
                   = Job.set_results results (JobQueue.deref q job)).
    { destruct (decide (Job.kind (JobQueue.deref q job) = JobKind.diffusion)) as [Hk|Hk].
      - rewrite set_results_diffusion by done. unfold JobQueue.deref.
        rewrite (proj2 (prune_entries_sub _ _ _)). apply deref_update_job_eq.
      - rewrite set_results_other_kind by done. apply deref_update_job_eq. }
    rewrite Hjob. simpl. destruct Hside as [->|Hfin]; done.
  - by apply (results_set_results_except settings job results q
                (results_only_when_finished_weaken job q HR)).
Qed.

Lemma add_control_layer_jobs (host : Host) (job : JobRef) (result : option string)
    (m : Model.t) :
  Model.jobs (Model.add_control_layer host job result m).2 = Model.jobs m.
Proof. unfold Model.add_control_layer. repeat case_match; done. Qed.

Lemma add_upscale_layer_jobs (job : JobRef) (m : Model.t) :
  Model.jobs (Model.add_upscale_layer job m).2 = Model.jobs m.
Proof. unfold Model.add_upscale_layer. repeat case_match; done. Qed.

(** A [finished] message that [handle_message] gets through: results first,
    the finished state after, and the predicate holds again at the end. *)
Lemma handle_message_finished_results (settings : Settings) (host : Host)
    (message : ClientMessage.t) (m m' : Model.t) :
  ClientMessage.event message = ClientEvent.finished →
  results_only_when_finished (Model.jobs m) →
  Model.handle_message settings host message m = (Ok (), m') →
  results_only_when_finished (Model.jobs m').
Proof.
  intros Hevent HR. unfold Model.handle_message. rewrite Hevent.
  destruct (JobQueue.find (ClientMessage.job_id message) (Model.jobs m)) as [job|];
    [|by intros [= <-]].
  (* results *)
  set (attach := if truthy_images (ClientMessage.images message) then _ else _).
  assert (Hattach : results_only_when_finished_except job (Model.jobs attach.2)).
  { subst attach. destruct (truthy_images (ClientMessage.images message)).
    - destruct (JobQueue.set_results settings job
                  (default [] (ClientMessage.images message)) (Model.jobs m))
        as [r q] eqn:Hset.
      simpl. change q with (r, q).2. rewrite <- Hset.
      by apply results_set_results_except, results_only_when_finished_weaken.
    - by apply results_only_when_finished_weaken. }
  destruct attach as [[[]|e] m1]; simpl in *; [|discriminate].
  (* the layer, the upscaled image or the live result *)
  set (side := match Job.kind (JobQueue.deref (Model.jobs m1) job) with
               | JobKind.diffusion => _
               | _ => _
               end).
  assert (Hside : Model.jobs side.2 = Model.jobs m1).
  { subst side. destruct (Job.kind (JobQueue.deref (Model.jobs m1) job)).
    - done.
    - destruct (Job.control (JobQueue.deref (Model.jobs m1) job)) as [c|]; [|done].
      pose proof (add_control_layer_jobs host job (ClientMessage.result message) m1)
        as Hjobs.
      destruct (Model.add_control_layer host job (ClientMessage.result message) m1)
        as [[l|e] m2]; done.
    - apply add_upscale_layer_jobs.
    - by destruct (Job.results (JobQueue.deref (Model.jobs m1) job)). }
  destruct side as [[[]|e] m2]; simpl in *; [|discriminate].
  (* finished, then removed or selected *)
  assert (Hfin : results_only_when_finished
                   (JobQueue.notify_finished job (Model.jobs m2))).
  { apply results_notify_finished. by rewrite Hside. }
  destruct (bool_decide (Job.kind (JobQueue.deref (Model.jobs m1) job)
                         ≠ JobKind.diffusion)).
  - destruct (remove_entries_sub job (JobQueue.notify_finished job (Model.jobs m2)))
      as [Hsub Hheap].
    destruct (JobQueue.remove job (JobQueue.notify_finished job (Model.jobs m2)))
      as [r q]. simpl in *.
    intros [= -> <-]. simpl.
    exact (results_only_when_finished_sub
             (JobQueue.notify_finished job (Model.jobs m2)) q Hsub Hheap Hfin).
  - destruct (_ && _); intros [= <-]; simpl; [|done].
    by apply (results_only_when_finished_sub (JobQueue.notify_finished job (Model.jobs m2))).
Qed.

(** A job that holds no results joins the queue. *)
Lemma results_push (q q' : JobQueue.t) (r : JobRef) :
  results_only_when_finished q →
  JobQueue._entries q' = JobQueue._entries q ++ [r] →
  (∀ j, j ≠ r → JobQueue.deref q' j = JobQueue.deref q j) →
  Job.results (JobQueue.deref q' r) = [] →
  results_only_when_finished q'.
Proof.
  intros HR Hentries Hold Hnew j Hj.
  destruct (decide (j = r)) as [->|Hne]; [by rewrite Hnew|].
  rewrite Hold by done. apply HR.
  rewrite Hentries in Hj. apply elem_of_app in Hj as [Hj|Hj]; [done|].
  by apply list_elem_of_singleton in Hj.
Qed.

Lemma results_add_control (control : ControlRef) (text : string) (b : Bounds)
    (q : JobQueue.t) :
  results_only_when_finished q →
  results_only_when_finished (JobQueue.add_control control text b q).2.
Proof.
  intros HR.
  apply (results_push q _ (fresh (dom (JobQueue.heap q))) HR); [reflexivity| |].
  - intros j Hj. unfold JobQueue.deref, JobQueue.add_control. simpl.
    rewrite lookup_total_insert_ne by done. by apply lookup_total_insert_ne.
  - unfold JobQueue.deref, JobQueue.add_control. simpl.
    rewrite lookup_total_insert_eq. unfold JobQueue.deref. simpl.
    by rewrite lookup_total_insert_eq.
Qed.

Lemma results_add_upscale (text : string) (b : Bounds) (q : JobQueue.t) :
  results_only_when_finished q →
  results_only_when_finished (JobQueue.add_upscale text b q).2.
Proof.
  intros HR.
  apply (results_push q _ (fresh (dom (JobQueue.heap q))) HR); [reflexivity| |].
  - intros j Hj. unfold JobQueue.deref, JobQueue.add_upscale. simpl.
    by apply lookup_total_insert_ne.
  - unfold JobQueue.deref, JobQueue.add_upscale. simpl. by rewrite lookup_total_insert_eq.
Qed.

Lemma results_add_live (prompt : string) (b : Bounds) (q : JobQueue.t) :
  results_only_when_finished q →
  results_only_when_finished (JobQueue.add_live prompt b q).2.
Proof.
  intros HR.
  apply (results_push q _ (fresh (dom (JobQueue.heap q))) HR); [reflexivity| |].
  - intros j Hj. unfold JobQueue.deref, JobQueue.add_live. simpl.
    by apply lookup_total_insert_ne.
  - unfold JobQueue.deref, JobQueue.add_live. simpl. by rewrite lookup_total_insert_eq.
Qed.

(** An assignment to an attribute of one job. *)
Lemma results_update_job (job : JobRef) (f : Job.t → Job.t) (q : JobQueue.t) :
  results_only_when_finished q →
  (job ∈ JobQueue._entries q →
   Job.results (f (JobQueue.deref q job)) ≠ [] →
   Job.state (f (JobQueue.deref q job)) = State.finished) →
  results_only_when_finished (JobQueue.update_job job f q).
Proof.
  intros HR Hjob j Hj.
  destruct (decide (j = job)) as [->|Hne].
  - rewrite deref_update_job_eq. by apply Hjob.
  - rewrite deref_update_job_ne by done. by apply HR.
Qed.

Lemma results_notify_started (job : JobRef) (q : JobQueue.t) :
  results_only_when_finished q →
  Job.results (JobQueue.deref q job) = [] →
  results_only_when_finished (JobQueue.notify_started job q).
Proof.
  intros HR Hnone.
  apply (results_only_when_finished_sub
           (JobQueue.update_job job (Job.set_state State.executing) q));
    [done|done|].
  apply results_update_job; [done|]. intros _ Hres. simpl in Hres.
  unfold Job.results in Hnone. by rewrite Hnone in Hres.
Qed.

Lemma results_cancelled (job : JobRef) (q : JobQueue.t) :
  results_only_when_finished q →
  Job.results (JobQueue.deref q job) = [] →
  results_only_when_finished (JobQueue.update_job job (Job.set_state State.cancelled) q).
Proof.
  intros HR Hnone. apply results_update_job; [done|].
  intros _ Hres. simpl in Hres. unfold Job.results in Hnone. by rewrite Hnone in Hres.
Qed.

Lemma results_assign_id (job : JobRef) (id : option string) (q : JobQueue.t) :
  results_only_when_finished q →
  results_only_when_finished (JobQueue.update_job job (Job_set_id id) q).
Proof.
  intros HR. apply results_update_job; [done|]. intros Hin Hres. by apply HR.
Qed.

Lemma remove_each_entries_sub (to_remove : list JobRef) (q : JobQueue.t) :
  (∀ j, j ∈ JobQueue._entries (remove_each to_remove q).2 → j ∈ JobQueue._entries q)
  ∧ JobQueue.heap (remove_each to_remove q).2 = JobQueue.heap q.
Proof.
  revert q. induction to_remove as [|job rest IH]; intros q; [done|].
  simpl. destruct (remove_entries_sub job q) as [Hsub Hheap].
  destruct (JobQueue.remove job q) as [[[]|e] q1]; simpl in *; [|done].
  destruct (IH q1) as [Hsub1 Hheap1]. split.
  - intros j Hj. by apply Hsub, Hsub1.
  - by rewrite Hheap1.
Qed.

Lemma results_cancel (active queued : bool) (m : Model.t)
    (connection : list ConnectionCall) :
  results_only_when_finished (Model.jobs m) →
  results_only_when_finished (Model.jobs (Model_cancel active queued (m, connection)).2.1).
Proof.
  intros HR. unfold Model_cancel.
  set (to_remove := filter _ (JobQueue._entries (Model.jobs m))).
  destruct queued; simpl.
  - destruct (bool_decide (0 < length to_remove)%nat).
    + destruct (remove_each_entries_sub to_remove (Model.jobs m)) as [Hsub Hheap].
      destruct (remove_each to_remove (Model.jobs m)) as [[[]|e] q]; simpl in *.
      * destruct (active && JobQueue.any_executing q); simpl;
          by apply (results_only_when_finished_sub (Model.jobs m)).
      * by apply (results_only_when_finished_sub (Model.jobs m)).
    + simpl. by destruct (active && JobQueue.any_executing (Model.jobs m)).
  - by destruct (active && JobQueue.any_executing (Model.jobs m)).
Qed.

Lemma clear_error_jobs (m : Model.t) : Model.jobs (Model.clear_error m) = Model.jobs m.
Proof. unfold Model.clear_error. by destruct (bool_decide _). Qed.

(** [generate] leaves the queue alone: the job is added by the coroutine. *)
Lemma generate_jobs (settings : Settings) (host : Host) (m : Model.t) :
  Model.jobs (Model.generate settings host m).2 = Model.jobs m.
Proof.
  unfold Model.generate, and_then, lift.
  repeat case_match; simplify_eq; simpl; try done; apply clear_error_jobs.
Qed.

(** The coroutine adds one diffusion job, or none if it raises. *)
Lemma run_task_jobs (host : Host) (m : Model.t) :
  Model.jobs (Model.run_task host m) = Model.jobs m ∨
  ∃ id prompt b,
    Model.jobs (Model.run_task host m) = JobQueue.add id prompt b (Model.jobs m).
Proof.
  unfold Model.run_task, Model._generate, Model._report_errors, and_then, lift.
  repeat case_match; simplify_eq; simpl; eauto.
Qed.

Lemma results_handle_message (settings : Settings) (host : Host)
    (message : ClientMessage.t) (m : Model.t) :
  results_only_when_finished (Model.jobs m) →
  keeps_results_with_finished settings host (call_handle_message message) m →
  results_only_when_finished (Model.jobs (Model.handle_message settings host message m).2).
Proof.
  intros HR Hside. simpl in Hside.
  destruct (ClientMessage.event message) eqn:Hevent.
  - unfold Model.handle_message in *. rewrite Hevent.
    destruct (JobQueue.find _ _) as [job|]; [|done].
    simpl. by apply results_notify_started.
  - destruct (JobQueue.find (ClientMessage.job_id message) (Model.jobs m))
      as [job|] eqn:Hfind.
    + destruct (Model.handle_message settings host message m) as [r m'] eqn:Hrun.
      simpl in Hside. subst r.
      by apply (handle_message_finished_results settings host message m m').
    + unfold Model.handle_message. by rewrite Hfind.
  - unfold Model.handle_message in *. rewrite Hevent.
    destruct (JobQueue.find _ _) as [job|]; [|done].
    simpl. by apply results_cancelled.
  - unfold Model.handle_message in *. rewrite Hevent.
    destruct (JobQueue.find _ _) as [job|]; [|done].
    simpl. by apply results_cancelled.
Qed.

(** One operation, under its condition. *)
Lemma perform_keeps_results (settings : Settings) (host : Host)
    (op : Operation) (m : Model.t) :
  results_only_when_finished (Model.jobs m) →
  keeps_results_with_finished settings host op m →
  results_only_when_finished (Model.jobs (perform settings host op m).2).
Proof.
  intros HR Hside. destruct op; simpl in Hside; unfold perform, on_jobs.
  - by apply results_add.
  - pose proof (results_add_control control text b (Model.jobs m) HR) as H.
    by destruct (JobQueue.add_control control text b (Model.jobs m)).
  - pose proof (results_add_upscale text b (Model.jobs m) HR) as H.
    by destruct (JobQueue.add_upscale text b (Model.jobs m)).
  - pose proof (results_add_live prompt b (Model.jobs m) HR) as H.
    by destruct (JobQueue.add_live prompt b (Model.jobs m)).
  - destruct (remove_entries_sub job (Model.jobs m)) as [Hsub Hheap].
    destruct (JobQueue.remove job (Model.jobs m)) as [r q]. simpl in *.
    by apply (results_only_when_finished_sub (Model.jobs m)).
  - pose proof (results_set_results settings job results (Model.jobs m) HR Hside) as H.
    by destruct (JobQueue.set_results settings job results (Model.jobs m)).
  - simpl. by apply results_notify_started.
  - simpl. by apply results_notify_finished, results_only_when_finished_weaken.
  - destruct (prune_entries_sub settings keep (Model.jobs m)) as [Hsub Hheap].
    destruct (JobQueue.prune settings keep (Model.jobs m)) as [r q]. simpl in *.
    by apply (results_only_when_finished_sub (Model.jobs m)).
  - simpl. by apply (results_only_when_finished_sub (Model.jobs m)).
  - simpl. by apply (results_only_when_finished_sub (Model.jobs m)).
  - by rewrite generate_jobs.
  - simpl. destruct (run_task_jobs host m) as [->|(id & prompt & b & ->)]; [done|].
    by apply results_add.
  - simpl. by apply results_assign_id.
  - pose proof (results_cancel active queued m [] HR) as H.
    by destruct (Model_cancel active queued (m, [])) as [r [m' connection]].
  - done.
  - done.
  - simpl. by rewrite clear_error_jobs.
  - pose proof (add_control_layer_jobs host job result m) as H.
    destruct (Model.add_control_layer host job result m) as [r m']. simpl in *.
    by rewrite H.
  - by rewrite add_upscale_layer_jobs.
  - by apply results_handle_message.
Qed.

(** C5, as the code has it: every operation on the queue or on a job keeps
    the predicate "the results of a queued job are empty unless it is
    finished", with three exceptions. [set_results] keeps it when the results
    attached are empty or the job is finished already. [notify_started] and
    the [progress], [interrupted] and [error] branches of [handle_message]
    keep it when the job they act on holds no results. The [finished] branch
    of [handle_message] keeps it as a whole when it returns: the results are
    attached first, the job becomes finished afterwards. *)
Theorem results_only_when_finished_kept (settings : Settings) (host : Host)
    (op : Operation) (m : Model.t) :
  results_only_when_finished (Model.jobs m) →
  keeps_results_with_finished settings host op m →
  results_only_when_finished (Model.jobs (perform settings host op m).2).
Proof. apply perform_keeps_results. Qed.

(** The [finished] message with a 50 MB image for the job of [model_with_job]. *)
Lemma results_only_when_finished_kept_witness :
  let msg := server_message ClientEvent.finished "J1" (Some (megabytes 50)) in
  let r := perform (budget 40) (host_without_selection "J1") (call_handle_message msg)
             model_with_job in
  r.1 = Ok () ∧
  Job.results (JobQueue.deref (Model.jobs r.2) J1) = megabytes 50 ∧
  results_only_when_finished (Model.jobs r.2).
Proof.
  intros msg r. split_and!; [reflexivity|reflexivity|].
  apply (results_only_when_finished_kept (budget 40) (host_without_selection "J1")
           (call_handle_message msg) model_with_job).
  - intros j Hj. vm_compute in Hj. apply list_elem_of_In in Hj.
    destruct Hj as [<-|[]]. intros Hres. by destruct Hres.
  - reflexivity.
Defined.

(** C5 as stated fails for [set_results]: it attaches the results and leaves
    the state alone. On the queued J1 of a fresh queue the predicate holds
    before the call and not after it. *)
Lemma set_results_before_finished :
  let q := JobQueue.add "J1" "a cat" canvas JobQueue.init in
  let r := JobQueue.set_results (budget 40) J1 (megabytes 50) q in
  results_only_when_finished q ∧
  r.1 = Ok () ∧
  Job.state (JobQueue.deref r.2 J1) = State.queued ∧
  ¬ results_only_when_finished r.2.
Proof.
  split_and!.
  - apply results_add. intros j Hj. by apply elem_of_nil in Hj.
  - reflexivity.
  - reflexivity.
  - intros HR. specialize (HR J1). simpl in HR.
    assert (Hfin : Job.state (JobQueue.deref
                     (JobQueue.set_results (budget 40) J1 (megabytes 50)
                        (JobQueue.add "J1" "a cat" canvas JobQueue.init)).2 J1)
                   = State.finished).
    { apply HR; [vm_compute; left|]. vm_compute. discriminate. }
    vm_compute in Hfin. discriminate.
Qed.

(** The other exceptions are needed as well. A job that is finished and holds
    results leaves the finished state, and keeps the results, when
    [notify_started] is called on it, or when a late [interrupted] message for
    it arrives. *)
Lemma notify_started_after_results :
  let q := JobQueue.notify_finished J1
             (JobQueue.set_results (budget 40) J1 (megabytes 50)
                (JobQueue.add "J1" "a cat" canvas JobQueue.init)).2 in
  results_only_when_finished q ∧
  ¬ results_only_when_finished (JobQueue.notify_started J1 q).
Proof.
  split.
  - intros j Hj. vm_compute in Hj. apply list_elem_of_In in Hj.
    destruct Hj as [<-|[]]. reflexivity.
  - intros HR.
    assert (Hfin : Job.state (JobQueue.deref
                     (JobQueue.notify_started J1
                        (JobQueue.notify_finished J1
                           (JobQueue.set_results (budget 40) J1 (megabytes 50)
                              (JobQueue.add "J1" "a cat" canvas JobQueue.init)).2)) J1)
                   = State.finished).
    { apply HR; [vm_compute; left|]. vm_compute. discriminate. }
    vm_compute in Hfin. discriminate.
Qed.

Lemma interrupted_after_results :
  let host := host_without_selection "J1" in
  let done_ := server_message ClientEvent.finished "J1" (Some (megabytes 50)) in
  let late := server_message ClientEvent.interrupted "J1" None in
  let m := (Model.handle_message (budget 40) host done_ model_with_job).2 in
  results_only_when_finished (Model.jobs m) ∧
  ¬ results_only_when_finished (Model.jobs (Model.handle_message (budget 40) host late m).2).
Proof.
  split.
  - intros j Hj. vm_compute in Hj. apply list_elem_of_In in Hj.
    destruct Hj as [<-|[]]. reflexivity.
  - intros HR.
    assert (Hfin : Job.state (JobQueue.deref
                     (Model.jobs
                        (Model.handle_message (budget 40) (host_without_selection "J1")
                           (server_message ClientEvent.interrupted "J1" None)
                           (Model.handle_message (budget 40) (host_without_selection "J1")
                              (server_message ClientEvent.finished "J1"
                                 (Some (megabytes 50))) model_with_job).2).2) J1)
                   = State.finished).
    { apply HR; [vm_compute; left|]. vm_compute. discriminate. }
    vm_compute in Hfin. discriminate.
Qed.

(** ** [generate] *)





#[local] Arguments Qeq_bool : simpl never.
#[local] Arguments Qltb : simpl never.
#[local] Arguments Qle_bool : simpl never.








(** * Further properties of the module *)

(** ** [find], [add], [count] *)

Lemma list_find_first {A} (p : A → bool) (l : list A) (x : A) :
  List.find p l = Some x ↔
  ∃ older younger, l = older ++ x :: younger ∧ p x = true
                   ∧ ∀ y, y ∈ older → p y = false.
Proof.
  induction l as [|a l IH]; simpl.
  - split; [done|]. intros (older & younger & Heq & _). by destruct older.
  - destruct (p a) eqn:Hpa.
    + split.
      * intros [= ->]. exists [], l. split_and!; [done|done|].
        intros y Hy. by apply elem_of_nil in Hy.
      * intros (older & younger & Heq & Hpx & Hold).
        destruct older as [|o older]; simpl in Heq.
        -- by injection Heq as -> _.
        -- injection Heq as -> _. rewrite (Hold o) in Hpa by left. done.
    + rewrite IH. split.
      * intros (older & younger & -> & Hpx & Hold).
        exists (a :: older), younger. split_and!; [done|done|].
        intros y Hy. apply elem_of_cons in Hy as [->|Hy]; [done|by apply Hold].
      * intros (older & younger & Heq & Hpx & Hold).
        destruct older as [|o older]; simpl in Heq.
        -- injection Heq as -> _. congruence.
        -- injection Heq as -> ->. exists older, younger. split_and!; [done|done|].
           intros y Hy. apply Hold. by right.
Qed.

(** [find] returns the oldest job of the queue that carries the id: the job
    it returns carries the id and no entry before it does, and any job that
    meets this is the one returned. *)
Theorem find_returns_oldest_match (id : string) (q : JobQueue.t) (job : JobRef) :
  JobQueue.find id q = Some job ↔
  ∃ older younger,
    JobQueue._entries q = older ++ job :: younger ∧
    Job.id (JobQueue.deref q job) = Some id ∧
    ∀ j, j ∈ older → Job.id (JobQueue.deref q j) ≠ Some id.
Proof.
  unfold JobQueue.find. rewrite list_find_first.
  split; intros (older & younger & Heq & Hid & Hold); exists older, younger.
  - split_and!; [done|by apply bool_decide_eq_true in Hid|].
    intros j Hj. specialize (Hold j Hj). by apply bool_decide_eq_false in Hold.
  - split_and!; [done|by apply bool_decide_eq_true|].
    intros j Hj. apply bool_decide_eq_false. by apply Hold.
Qed.

(** [add] followed by [find]: when no queued job carries the id yet, the id
    resolves to the job just added, which sits at the young end of the queue,
    queued, of kind diffusion, without results, with the prompt and bounds
    given; the accumulator is as before. *)
Theorem add_then_find (id prompt : string) (b : Bounds) (q : JobQueue.t) :
  (∀ j, j ∈ JobQueue._entries q → Job.id (JobQueue.deref q j) ≠ Some id) →
  let q' := JobQueue.add id prompt b q in
  ∃ job,
    JobQueue.find id q' = Some job ∧
    JobQueue._entries q' = JobQueue._entries q ++ [job] ∧
    JobQueue.deref q' job = Job.init (Some id) JobKind.diffusion prompt b ∧
    JobQueue.memory_usage q' = JobQueue.memory_usage q.
Proof.
  intros Hnew q'. set (r := fresh (dom (JobQueue.heap q))).
  assert (Hr : JobQueue.deref q' r = Job.init (Some id) JobKind.diffusion prompt b).
  { unfold JobQueue.deref, q', JobQueue.add. simpl. fold r. apply lookup_total_insert_eq. }
  exists r. split_and!; [|done|done|done].
  apply find_returns_oldest_match.
  change (JobQueue._entries q') with (JobQueue._entries q ++ [r]).
  assert (Hsplit : ∀ l, (∀ j, j ∈ l → j = r ∨ Job.id (JobQueue.deref q' j) ≠ Some id) →
            ∃ older younger, l ++ [r] = older ++ r :: younger ∧
              ∀ j, j ∈ older → Job.id (JobQueue.deref q' j) ≠ Some id).
  { induction l as [|a l IH]; intros Hl.
    - exists [], []. split; [done|]. intros j Hj. by apply elem_of_nil in Hj.
    - destruct (decide (a = r)) as [->|Hne].
      + exists [], (l ++ [r]). split; [done|]. intros j Hj. by apply elem_of_nil in Hj.
      + destruct IH as (older & younger & Heq & Hold).
        { intros j Hj. apply Hl. by right. }
        exists (a :: older), younger. simpl. rewrite Heq. split; [done|].
        intros j Hj. apply elem_of_cons in Hj as [->|Hj]; [|by apply Hold].
        destruct (Hl a) as [?|?]; [by left|done|done]. }
  destruct (Hsplit (JobQueue._entries q)) as (older & younger & Heq & Hold).
  { intros j Hj. destruct (decide (j = r)) as [?|Hne]; [by left|right].
    assert (Hsame : JobQueue.deref q' j = JobQueue.deref q j).
    { unfold JobQueue.deref, q', JobQueue.add. simpl. fold r.
      by apply lookup_total_insert_ne. }
    rewrite Hsame. by apply Hnew. }
  exists older, younger. split_and!; [done|by rewrite Hr|done].
Qed.

Lemma add_then_find_witness :
  ∃ job, JobQueue.find "J2" (JobQueue.add "J2" "a dog" canvas
                               (JobQueue.add "J1" "a cat" canvas JobQueue.init))
         = Some job.
Proof.
  destruct (add_then_find "J2" "a dog" canvas
              (JobQueue.add "J1" "a cat" canvas JobQueue.init)) as (job & Hfind & _).
  - intros j Hj. vm_compute in Hj. apply list_elem_of_In in Hj.
    destruct Hj as [<-|[]]. vm_compute. discriminate.
  - exists job. exact Hfind.
Defined.

(** Every job of the queue is in exactly one of the four states: the four
    counts add up to the length of the queue. *)
Theorem count_partitions_queue (q : JobQueue.t) :
  (JobQueue.count State.queued q + JobQueue.count State.executing q
   + JobQueue.count State.finished q + JobQueue.count State.cancelled q)%nat
  = JobQueue_len q.
Proof.
  unfold JobQueue.count, JobQueue_len.
  induction (JobQueue._entries q) as [|a l IH]; [done|].
  rewrite !filter_cons. simpl. rewrite <- IH.
  destruct (Job.state (JobQueue.deref q a));
    repeat case_decide; try congruence; simpl; lia.
Qed.

(** [any_executing] says whether [count(State.executing)] is positive. *)
Theorem any_executing_iff_count (q : JobQueue.t) :
  JobQueue.any_executing q = true ↔ (0 < JobQueue.count State.executing q)%nat.
Proof.
  unfold JobQueue.any_executing, JobQueue.count.
  induction (JobQueue._entries q) as [|a l IH]; simpl.
  - split; [done|]. cbn. lia.
  - rewrite filter_cons. case_decide as Hst.
    + rewrite (bool_decide_eq_true_2 _ Hst). simpl. split; [lia|done].
    + rewrite (bool_decide_eq_false_2 _ Hst). simpl. exact IH.
Qed.

(** ** [remove] *)

Lemma remove_first_split (job : JobRef) (l : list JobRef) :
  job ∈ l →
  ∃ older younger,
    l = older ++ job :: younger ∧ (job ∉ older)
    ∧ JobQueue.remove_first job l = older ++ younger.
Proof.
  induction l as [|a l IH]; intros Hin; [by apply elem_of_nil in Hin|].
  simpl. destruct (decide (a = job)) as [->|Hne].
  - exists [], l. split_and!; [done|apply not_elem_of_nil|done].
  - apply elem_of_cons in Hin as [->|Hin]; [done|].
    destruct (IH Hin) as (older & younger & -> & Hnot & ->).
    exists (a :: older), younger. split_and!; [done| |done].
    rewrite not_elem_of_cons. split; [congruence|done].
Qed.

(** [remove] of a queued job takes out its oldest occurrence and nothing
    else: the other entries keep their order, and the jobs themselves, the
    accumulator and the selection are left as they are (so a selection may
    name a job that is gone). *)
Theorem remove_takes_first_occurrence (job : JobRef) (q : JobQueue.t) :
  job ∈ JobQueue._entries q →
  ∃ older younger,
    JobQueue._entries q = older ++ job :: younger ∧
    (job ∉ older) ∧
    JobQueue.remove job q =
      (Ok (), JobQueue.emit count_changed (JobQueue.with_entries (older ++ younger) q)).
Proof.
  intros Hin. destruct (remove_first_split job _ Hin) as (older & younger & Heq & Hnot & Hrm).
  exists older, younger. split_and!; [done|done|].
  unfold JobQueue.remove. rewrite decide_True by done. by rewrite Hrm.
Qed.

Lemma remove_takes_first_occurrence_witness :
  ∃ older younger,
    JobQueue.remove J1 (JobQueue.add "J2" "a dog" canvas
                          (JobQueue.add "J1" "a cat" canvas JobQueue.init))
    = (Ok (), JobQueue.emit count_changed
                (JobQueue.with_entries (older ++ younger)
                   (JobQueue.add "J2" "a dog" canvas
                      (JobQueue.add "J1" "a cat" canvas JobQueue.init)))).
Proof.
  destruct (remove_takes_first_occurrence J1
              (JobQueue.add "J2" "a dog" canvas
                 (JobQueue.add "J1" "a cat" canvas JobQueue.init)))
    as (older & younger & _ & _ & Hrm).
  - vm_compute. left.
  - exists older, younger. exact Hrm.
Defined.

(** ** More on [prune] *)

Lemma size_mb_nonneg (c : ImageCollection) : (0 <= size_mb c)%Q.
Proof.
  unfold size_mb, Qdiv. apply Qmult_le_0_compat.
  - unfold Qle. simpl. lia.
  - apply Qinv_le_0_compat. unfold Qle. simpl. lia.
Qed.

Lemma sum_over_nonneg (f : JobRef → Q) (l : list JobRef) :
  (∀ j, (0 <= f j)%Q) → (0 <= sum_over f l)%Q.
Proof.
  intros Hf. induction l as [|a l IH]; simpl; [lra|]. specialize (Hf a). lra.
Qed.

Lemma prune_at_rest (settings : Settings) (keep : JobRef) (q : JobQueue.t) :
  (JobQueue.memory_usage q <= inject_Z (history_size settings))%Q
  ∨ head (JobQueue._entries q) = Some keep →
  JobQueue.prune settings keep q = (Ok (), q).
Proof.
  intros Hrest. unfold JobQueue.prune.
  destruct q as [h entries sel usage sig]. simpl in *.
  unfold JobQueue.memory_usage in Hrest. simpl in Hrest.
  destruct entries as [|first rest]; simpl.
  - destruct Hrest as [Hle|?]; [|done].
    by rewrite (proj2 (Qgtb_false _ _) Hle).
  - destruct Hrest as [Hle|[= ->]].
    + by rewrite (proj2 (Qgtb_false _ _) Hle).
    + rewrite (bool_decide_eq_false_2 (keep ≠ keep)) by (intros H; by apply H).
      by rewrite andb_false_r.
Qed.

(** [prune] leaves the queue exactly as it is (and returns) if and only if
    the accumulator is within the budget or the protected job is the oldest
    entry. *)
Theorem prune_is_noop_iff (settings : Settings) (keep : JobRef) (q : JobQueue.t) :
  JobQueue.prune settings keep q = (Ok (), q) ↔
  (JobQueue.memory_usage q <= inject_Z (history_size settings))%Q
  ∨ head (JobQueue._entries q) = Some keep.
Proof.
  split; [|apply prune_at_rest].
  rewrite prune_unfold. simpl.
  destruct (prune_loop_spec settings (JobQueue.heap q) keep
              (JobQueue._entries q) (JobQueue._memory_usage q))
    as (dropped & kept & usage' & r & Hrun & _ & _ & _ & Hend).
  rewrite Hrun. simpl. intros [= -> Hq].
  pose proof (f_equal JobQueue._entries Hq) as Hkept.
  pose proof (f_equal JobQueue._memory_usage Hq) as Husage.
  simpl in Hkept, Husage. unfold JobQueue.memory_usage.
  rewrite <- Hkept, <- Husage.
  destruct Hend as [[_ Hend]|[? _]]; [exact Hend|done].
Qed.

(** Once [prune] has returned, pruning again for the same job changes
    nothing. *)
Theorem prune_twice (settings : Settings) (keep : JobRef) (q : JobQueue.t) :
  (JobQueue.prune settings keep q).1 = Ok () →
  JobQueue.prune settings keep (JobQueue.prune settings keep q).2
  = (Ok (), (JobQueue.prune settings keep q).2).
Proof.
  rewrite prune_unfold. simpl.
  destruct (prune_loop_spec settings (JobQueue.heap q) keep
              (JobQueue._entries q) (JobQueue._memory_usage q))
    as (dropped & kept & usage' & r & Hrun & _ & _ & _ & Hend).
  rewrite Hrun. simpl. intros ->.
  apply prune_at_rest. destruct Hend as [[_ Hend]|[? _]]; [exact Hend|done].
Qed.

Lemma prune_twice_witness :
  let q0 := JobQueue.add "J2" "a dog" canvas
              (JobQueue.add "J1" "a cat" canvas JobQueue.init) in
  let q := JobQueue.with_memory_usage
             (JobQueue._memory_usage q0 + size_mb (megabytes 50))%Q
             (JobQueue.update_job J2 (Job.set_results (megabytes 50)) q0) in
  JobQueue.prune (budget 40) J2 (JobQueue.prune (budget 40) J2 q).2
  = (Ok (), (JobQueue.prune (budget 40) J2 q).2).
Proof.
  intros q0 q. apply (prune_twice (budget 40) J2 q). reflexivity.
Defined.

Lemma prune_loop_minimal (settings : Settings) (h : gmap JobRef Job.t) (keep : JobRef)
    (entries : list JobRef) (usage : Q) :
  ∃ dropped,
    entries = dropped ++ (JobQueue.prune_loop settings h keep entries usage).2.1 ∧
    Qeq (usage - (JobQueue.prune_loop settings h keep entries usage).2.2)
        (sum_over (fun j => size_mb (Job._results (h !!! j))) dropped) ∧
    ∀ before job after, dropped = before ++ job :: after →
      job ≠ keep ∧
      (inject_Z (history_size settings)
       < usage - sum_over (fun j => size_mb (Job._results (h !!! j))) before)%Q.
Proof.
  revert usage. induction entries as [|first rest IH]; intros usage.
  - exists []. simpl. destruct (Qgtb _ _); simpl; (split_and!; [done|lra|]);
      intros before job after Heq; by destruct before.
  - rewrite prune_loop_cons.
    destruct (Qgtb usage (inject_Z (history_size settings))) eqn:Hover; simpl.
    + destruct (bool_decide (first ≠ keep)) eqn:Hkeep.
      * apply bool_decide_eq_true in Hkeep. apply Qgtb_true in Hover.
        destruct (IH (usage - size_mb (Job._results (h !!! first)))%Q)
          as (dropped & Happ & Hsum & Hmin).
        exists (first :: dropped). split_and!.
        -- simpl. by rewrite <- Happ.
        -- simpl. lra.
        -- intros before job after Heq. destruct before as [|b before]; simpl in Heq.
           ++ injection Heq as <- _. simpl. split; [done|lra].
           ++ injection Heq as <- Heq. destruct (Hmin _ _ _ Heq) as [Hne Hlt].
              split; [done|]. simpl. lra.
      * exists []. simpl. split_and!; [done|lra|].
        intros before job after Heq; by destruct before.
    + exists []. simpl. split_and!; [done|lra|].
      intros before job after Heq; by destruct before.
Qed.

(** [prune] evicts from the old end, only as far as needed: the evicted
    jobs are a prefix of the queue, the accumulator goes down by exactly the
    megabytes they hold (so it never goes up), none of them is the protected
    job, and each was evicted while the accumulator, less what the jobs
    before it held, was still over the budget. *)
Theorem prune_evicts_no_more_than_needed (settings : Settings) (keep : JobRef)
    (q : JobQueue.t) :
  let q' := (JobQueue.prune settings keep q).2 in
  ∃ evicted,
    JobQueue._entries q = evicted ++ JobQueue._entries q' ∧
    (JobQueue.memory_usage q - JobQueue.memory_usage q' == held_mb q evicted)%Q ∧
    (JobQueue.memory_usage q' <= JobQueue.memory_usage q)%Q ∧
    ∀ before job after, evicted = before ++ job :: after →
      job ≠ keep ∧
      (inject_Z (history_size settings) < JobQueue.memory_usage q - held_mb q before)%Q.
Proof.
  intros q'. subst q'. rewrite prune_unfold. simpl.
  destruct (prune_loop_minimal settings (JobQueue.heap q) keep
              (JobQueue._entries q) (JobQueue._memory_usage q))
    as (evicted & Happ & Hsum & Hmin).
  exists evicted. unfold JobQueue.memory_usage, held_mb. simpl.
  split_and!; [done|exact Hsum| |exact Hmin].
  pose proof (sum_over_nonneg
                (fun j => size_mb (Job._results (JobQueue.heap q !!! j))) evicted
                (fun j => size_mb_nonneg _)) as Hpos.
  lra.
Qed.

(** ** [set_results] *)

Lemma prune_keeps_keep (settings : Settings) (keep : JobRef) (q : JobQueue.t) :
  keep ∈ JobQueue._entries q →
  (JobQueue.prune settings keep q).1 = Ok ()
  ∧ keep ∈ JobQueue._entries (JobQueue.prune settings keep q).2.
Proof.
  intros Hin. rewrite prune_unfold. simpl.
  split; [by apply prune_loop_total|].
  destruct (prune_loop_spec settings (JobQueue.heap q) keep
              (JobQueue._entries q) (JobQueue._memory_usage q))
    as (dropped & kept & usage' & r & Hrun & Happ & Hnot & _).
  rewrite Hrun. simpl. rewrite Happ in Hin.
  apply elem_of_app in Hin as [Hin|Hin]; done.
Qed.

Lemma set_results_frame (settings : Settings) (job : JobRef)
    (results : ImageCollection) (q : JobQueue.t) :
  JobQueue.heap (JobQueue.set_results settings job results q).2
  = <[job := Job.set_results results (JobQueue.deref q job)]> (JobQueue.heap q)
  ∧ ∀ j, j ∈ JobQueue._entries (JobQueue.set_results settings job results q).2 →
         j ∈ JobQueue._entries q.
Proof.
  destruct (decide (Job.kind (JobQueue.deref q job) = JobKind.diffusion)) as [Hk|Hk].
  - rewrite set_results_diffusion by done.
    destruct (prune_entries_sub settings job
                (JobQueue.with_memory_usage
                   (JobQueue._memory_usage q + size_mb results)%Q
                   (JobQueue.update_job job (Job.set_results results) q)))
      as [Hsub Hheap].
    split; [by rewrite Hheap|exact Hsub].
  - rewrite set_results_other_kind by done. done.
Qed.

(** [set_results] on a job that is in the queue returns normally, whatever
    the kind of the job and however far over the budget the results take the
    accumulator; the job is still in the queue afterwards and holds the new
    results, its other attributes and all other jobs are as before, and no
    job has joined the queue. *)
Theorem set_results_of_queued_job (settings : Settings) (job : JobRef)
    (results : ImageCollection) (q : JobQueue.t) :
  job ∈ JobQueue._entries q →
  let r := JobQueue.set_results settings job results q in
  r.1 = Ok () ∧
  job ∈ JobQueue._entries r.2 ∧
  JobQueue.deref r.2 job = Job.set_results results (JobQueue.deref q job) ∧
  (∀ j, j ≠ job → JobQueue.deref r.2 j = JobQueue.deref q j) ∧
  (∀ j, j ∈ JobQueue._entries r.2 → j ∈ JobQueue._entries q).
Proof.
  intros Hin r. subst r.
  destruct (set_results_frame settings job results q) as [Hheap Hsub].
  assert (Hok : (JobQueue.set_results settings job results q).1 = Ok ()
                ∧ job ∈ JobQueue._entries (JobQueue.set_results settings job results q).2).
  { destruct (decide (Job.kind (JobQueue.deref q job) = JobKind.diffusion)) as [Hk|Hk].
    - rewrite set_results_diffusion by done. by apply prune_keeps_keep.
    - rewrite set_results_other_kind by done. done. }
  destruct Hok as [Hok Hjob].
  split_and!; [done|done| | |done].
  - unfold JobQueue.deref at 1. rewrite Hheap. apply lookup_total_insert_eq.
  - intros j Hne. unfold JobQueue.deref at 1. rewrite Hheap.
    by apply lookup_total_insert_ne.
Qed.

Lemma set_results_of_queued_job_witness :
  let q := JobQueue.add "J2" "a dog" canvas
             (JobQueue.add "J1" "a cat" canvas JobQueue.init) in
  (JobQueue.set_results (budget 40) J1 (megabytes 50) q).1 = Ok ().
Proof.
  intros q.
  refine (proj1 (set_results_of_queued_job (budget 40) J1 (megabytes 50) q _)).
  vm_compute. left.
Defined.

(** ** More on [handle_message] *)

(** A [progress] message for a job of the queue marks it executing,
    whatever state it was in (a finished or cancelled job too), and sets the
    progress of the model to the value of the message; the queue then has an
    executing job. Entries, accumulator and error stay as they were. *)
Theorem handle_message_progress (settings : Settings) (host : Host)
    (message : ClientMessage.t) (m : Model.t) (job : JobRef) :
  JobQueue.find (ClientMessage.job_id message) (Model.jobs m) = Some job →
  ClientMessage.event message = ClientEvent.progress →
  let r := Model.handle_message settings host message m in
  r.1 = Ok () ∧
  Job.state (JobQueue.deref (Model.jobs r.2) job) = State.executing ∧
  JobQueue.any_executing (Model.jobs r.2) = true ∧
  Model.progress r.2 = ClientMessage.progress message ∧
  Model.error r.2 = Model.error m ∧
  JobQueue._entries (Model.jobs r.2) = JobQueue._entries (Model.jobs m) ∧
  JobQueue.memory_usage (Model.jobs r.2) = JobQueue.memory_usage (Model.jobs m).
Proof.
  intros Hfind Hevent r. subst r. unfold Model.handle_message.
  rewrite Hfind, Hevent. simpl.
  assert (Hstate : Job.state
            (JobQueue.deref (JobQueue.notify_started job (Model.jobs m)) job)
            = State.executing).
  { change (JobQueue.deref (JobQueue.notify_started job (Model.jobs m)) job)
      with (JobQueue.deref
              (JobQueue.update_job job (Job.set_state State.executing) (Model.jobs m)) job).
    by rewrite deref_update_job_eq. }
  split_and!; [done|done| |done|done|done|done].
  unfold JobQueue.any_executing. apply existsb_exists. exists job.
  apply find_spec in Hfind as [Hin _].
  split; [by apply list_elem_of_In|by apply bool_decide_eq_true].
Qed.

Lemma handle_message_progress_witness :
  let r := Model.handle_message (budget 40) (host_without_selection "J1")
             (ClientMessage.mk ClientEvent.progress "J1" (1 # 2) None None None)
             model_with_job in
  Job.state (JobQueue.deref (Model.jobs r.2) J1) = State.executing ∧
  Model.progress r.2 = (1 # 2)%Q.
Proof.
  destruct (handle_message_progress (budget 40) (host_without_selection "J1")
              (ClientMessage.mk ClientEvent.progress "J1" (1 # 2) None None None)
              model_with_job J1) as (_ & Hstate & _ & Hprogress & _).
  - reflexivity.
  - reflexivity.
  - split; [exact Hstate|exact Hprogress].
Defined.

(** An [error] message for a job of the queue marks it cancelled, stores
    "Server execution error: " followed by the text of the message as the
    error of the model, and switches the live mode off; progress, entries and
    accumulator stay as they were. *)
Theorem handle_message_error (settings : Settings) (host : Host)
    (message : ClientMessage.t) (m : Model.t) (job : JobRef) :
  JobQueue.find (ClientMessage.job_id message) (Model.jobs m) = Some job →
  ClientMessage.event message = ClientEvent.error →
  let r := Model.handle_message settings host message m in
  r.1 = Ok () ∧
  Job.state (JobQueue.deref (Model.jobs r.2) job) = State.cancelled ∧
  Model.error r.2
    = "Server execution error: " +:+ default "None" (ClientMessage.error message) ∧
  Model.error r.2 ≠ "" ∧
  Model.live_is_active r.2 = false ∧
  Model.progress r.2 = Model.progress m ∧
  JobQueue._entries (Model.jobs r.2) = JobQueue._entries (Model.jobs m) ∧
  JobQueue.memory_usage (Model.jobs r.2) = JobQueue.memory_usage (Model.jobs m).
Proof.
  intros Hfind Hevent r. subst r. unfold Model.handle_message.
  rewrite Hfind, Hevent. simpl.
  split_and!; [done| |done|done|done|done|done|done].
  by rewrite deref_update_job_eq.
Qed.

Lemma handle_message_error_witness :
  let r := Model.handle_message (budget 40) (host_without_selection "J1")
             (ClientMessage.mk ClientEvent.error "J1" 0 None None (Some "out of memory"))
             model_with_job in
  Job.state (JobQueue.deref (Model.jobs r.2) J1) = State.cancelled ∧
  Model.error r.2 = "Server execution error: out of memory".
Proof.
  destruct (handle_message_error (budget 40) (host_without_selection "J1")
              (ClientMessage.mk ClientEvent.error "J1" 0 None None (Some "out of memory"))
              model_with_job J1) as (_ & Hstate & Herror & _).
  - reflexivity.
  - reflexivity.
  - split; [exact Hstate|exact Herror].
Defined.

Lemma deref_notify_finished_eq (job : JobRef) (q : JobQueue.t) :
  JobQueue.deref (JobQueue.notify_finished job q) job
  = Job.set_state State.finished (JobQueue.deref q job).
Proof. apply (deref_update_job_eq job (Job.set_state State.finished) q). Qed.

Lemma deref_notify_finished_ne (job other : JobRef) (q : JobQueue.t) :
  job ≠ other →
  JobQueue.deref (JobQueue.notify_finished job q) other = JobQueue.deref q other.
Proof. apply (deref_update_job_ne job other (Job.set_state State.finished) q). Qed.

Lemma deref_select (id : string) (index : Z) (q : JobQueue.t) (j : JobRef) :
  JobQueue.deref (JobQueue.select id index q) j = JobQueue.deref q j.
Proof. reflexivity. Qed.

Lemma set_results_diffusion_queued (settings : Settings) (job : JobRef)
    (results : ImageCollection) (q : JobQueue.t) :
  job ∈ JobQueue._entries q →
  Job.kind (JobQueue.deref q job) = JobKind.diffusion →
  ∃ q1,
    JobQueue.set_results settings job results q = (Ok (), q1) ∧
    job ∈ JobQueue._entries q1 ∧
    JobQueue.heap q1
      = <[job := Job.set_results results (JobQueue.deref q job)]> (JobQueue.heap q) ∧
    JobQueue._selection q1 = JobQueue._selection q.
Proof.
  intros Hin Hkind.
  destruct (JobQueue.set_results settings job results q) as [r q1] eqn:Hset.
  destruct (set_results_frame settings job results q) as [Hheap _].
  rewrite Hset in Hheap. simpl in Hheap.
  assert (Hprune : r = Ok () ∧ job ∈ JobQueue._entries q1
                   ∧ JobQueue._selection q1 = JobQueue._selection q).
  { rewrite set_results_diffusion in Hset by done.
    destruct (prune_keeps_keep settings job
                (JobQueue.with_memory_usage
                   (JobQueue._memory_usage q + size_mb results)%Q
                   (JobQueue.update_job job (Job.set_results results) q)) Hin)
      as [Hok Hjob].
    rewrite Hset in Hok, Hjob. simpl in Hok, Hjob. split_and!; [done|done|].
    rewrite prune_unfold in Hset. simpl in Hset. by injection Hset as _ <-. }
  destruct Hprune as (-> & Hjob & Hsel). by exists q1.
Qed.

(** A [finished] message for a diffusion job of the queue, while nothing is
    selected (so that the preview slot, which runs when the job is announced
    as finished, finds no result to show and leaves [_layer] as it is): the
    job holds the images of the message (its earlier results if the message
    brings none), is finished and stays in the queue; the progress is 1 and
    the error is untouched. If the model has no preview layer and the id of
    the job is not empty, the first result of the job becomes the selection;
    otherwise there is still no selection. *)
Theorem handle_message_finished_diffusion (settings : Settings) (host : Host)
    (message : ClientMessage.t) (m : Model.t) (job : JobRef) :
  JobQueue.find (ClientMessage.job_id message) (Model.jobs m) = Some job →
  ClientMessage.event message = ClientEvent.finished →
  Job.kind (JobQueue.deref (Model.jobs m) job) = JobKind.diffusion →
  JobQueue._selection (Model.jobs m) = None →
  let r := Model.handle_message settings host message m in
  job ∈ JobQueue._entries (Model.jobs r.2) ∧
  Job.state (JobQueue.deref (Model.jobs r.2) job) = State.finished ∧
  Job.results (JobQueue.deref (Model.jobs r.2) job)
    = (if truthy_images (ClientMessage.images message)
       then default [] (ClientMessage.images message)
       else Job.results (JobQueue.deref (Model.jobs m) job)) ∧
  Model.progress r.2 = 1%Q ∧
  Model.error r.2 = Model.error m ∧
  JobQueue._selection (Model.jobs r.2)
    = (if bool_decide (Model._layer m = None)
          && truthy_str (Job.id (JobQueue.deref (Model.jobs m) job))
       then Some (mkItem (default "" (Job.id (JobQueue.deref (Model.jobs m) job))) 0)
       else None).
Proof.
  intros Hfind Hevent Hkind Hnothing r. subst r.
  pose proof (find_spec _ _ _ Hfind) as [Hin _].
  unfold Model.handle_message. rewrite Hfind, Hevent.
  destruct (truthy_images (ClientMessage.images message)).
  - destruct (set_results_diffusion_queued settings job
                (default [] (ClientMessage.images message)) (Model.jobs m) Hin Hkind)
      as (q1 & Hset & Hjob & Hheap & Hsel).
    rewrite Hset.
    assert (Hd1 : JobQueue.deref q1 job
                  = Job.set_results (default [] (ClientMessage.images message))
                      (JobQueue.deref (Model.jobs m) job)).
    { unfold JobQueue.deref at 1. rewrite Hheap. apply lookup_total_insert_eq. }
    cbn [and_then Model.jobs Model.with_jobs].
    rewrite Hd1. cbn [Job.kind Job.set_results]. rewrite Hkind.
    cbn [and_then Model.jobs Model.with_jobs Model.with_progress Model._layer].
    rewrite (bool_decide_eq_false_2 (JobKind.diffusion ≠ JobKind.diffusion))
      by (intros H; by apply H).
    change (JobQueue.deref (JobQueue.notify_finished job q1) job)
      with (JobQueue.deref (JobQueue.update_job job (Job.set_state State.finished) q1) job).
    rewrite deref_update_job_eq, Hd1. cbn [Job.id Job.set_state Job.set_results].
    destruct (bool_decide (Model._layer m = None)
              && truthy_str (Job.id (JobQueue.deref (Model.jobs m) job)));
      cbn; rewrite ?deref_select, ?deref_notify_finished_eq, ?Hd1, ?Hsel, ?Hnothing;
      split_and!; done.
  - cbn [and_then]. rewrite Hkind.
    cbn [and_then Model.jobs Model.with_jobs Model.with_progress Model._layer].
    rewrite (bool_decide_eq_false_2 (JobKind.diffusion ≠ JobKind.diffusion))
      by (intros H; by apply H).
    change (JobQueue.deref (JobQueue.notify_finished job (Model.jobs m)) job)
      with (JobQueue.deref
              (JobQueue.update_job job (Job.set_state State.finished) (Model.jobs m)) job).
    rewrite deref_update_job_eq. cbn [Job.id Job.set_state].
    destruct (bool_decide (Model._layer m = None)
              && truthy_str (Job.id (JobQueue.deref (Model.jobs m) job)));
      cbn; rewrite ?deref_select, ?deref_notify_finished_eq, ?Hnothing; split_and!; done.
Qed.

Lemma handle_message_finished_diffusion_witness :
  let r := Model.handle_message (budget 40) (host_without_selection "J1")
             (server_message ClientEvent.finished "J1" (Some (megabytes 50)))
             model_with_job in
  Job.state (JobQueue.deref (Model.jobs r.2) J1) = State.finished ∧
  JobQueue._selection (Model.jobs r.2) = Some (mkItem "J1" 0).
Proof.
  destruct (handle_message_finished_diffusion (budget 40) (host_without_selection "J1")
              (server_message ClientEvent.finished "J1" (Some (megabytes 50)))
              model_with_job J1) as (_ & Hstate & _ & _ & _ & Hsel).
  - reflexivity.
  - reflexivity.
  - reflexivity.
  - reflexivity.
  - split_and!; [exact Hstate|exact Hsel].
Defined.

Lemma remove_first_not_in (job : JobRef) (l : list JobRef) :
  NoDup l → job ∉ JobQueue.remove_first job l.
Proof.
  induction l as [|a l IH]; simpl; [intros _; apply not_elem_of_nil|].
  rewrite NoDup_cons. intros [Ha Hnd].
  destruct (decide (a = job)) as [->|Hne]; [done|].
  rewrite not_elem_of_cons. split; [congruence|by apply IH].
Qed.

Lemma remove_queued (job : JobRef) (q : JobQueue.t) :
  job ∈ JobQueue._entries q →
  JobQueue.remove job q
  = (Ok (), JobQueue.emit count_changed
              (JobQueue.with_entries (JobQueue.remove_first job (JobQueue._entries q)) q)).
Proof. intros Hin. unfold JobQueue.remove. by rewrite decide_True. Qed.

(** A [finished] message for a job of another kind than diffusion, when
    [handle_message] gets through it: the job has left the queue (the queue
    holding no job twice), the other entries keep their order, and the
    accumulator and the selection are as before, whatever images the message
    brought; the progress is 1. *)
Theorem handle_message_finished_other_kind (settings : Settings) (host : Host)
    (message : ClientMessage.t) (m m' : Model.t) (job : JobRef) :
  JobQueue.find (ClientMessage.job_id message) (Model.jobs m) = Some job →
  ClientMessage.event message = ClientEvent.finished →
  Job.kind (JobQueue.deref (Model.jobs m) job) ≠ JobKind.diffusion →
  NoDup (JobQueue._entries (Model.jobs m)) →
  Model.handle_message settings host message m = (Ok (), m') →
  (job ∉ JobQueue._entries (Model.jobs m')) ∧
  JobQueue._entries (Model.jobs m')
    = JobQueue.remove_first job (JobQueue._entries (Model.jobs m)) ∧
  JobQueue.memory_usage (Model.jobs m') = JobQueue.memory_usage (Model.jobs m) ∧
  JobQueue._selection (Model.jobs m') = JobQueue._selection (Model.jobs m) ∧
  Model.progress m' = 1%Q.
Proof.
  intros Hfind Hevent Hkind Hnd.
  pose proof (find_spec _ _ _ Hfind) as [Hin _].
  unfold Model.handle_message. rewrite Hfind, Hevent.
  set (attach := if truthy_images (ClientMessage.images message) then _ else _).
  assert (Hattach :
    JobQueue._entries (Model.jobs attach.2) = JobQueue._entries (Model.jobs m) ∧
    JobQueue._memory_usage (Model.jobs attach.2) = JobQueue._memory_usage (Model.jobs m) ∧
    JobQueue._selection (Model.jobs attach.2) = JobQueue._selection (Model.jobs m) ∧
    Job.kind (JobQueue.deref (Model.jobs attach.2) job)
      = Job.kind (JobQueue.deref (Model.jobs m) job)).
  { subst attach. destruct (truthy_images (ClientMessage.images message)); [|done].
    rewrite set_results_other_kind by done. simpl.
    split_and!; [done|done|done|]. by rewrite deref_update_job_eq. }
  destruct attach as [[[]|e] m1]; simpl in Hattach |- *; [|discriminate].
  destruct Hattach as (Hentries & Hmem & Hsel & Hkind1).
  set (side := match Job.kind (JobQueue.deref (Model.jobs m1) job) with
               | JobKind.diffusion => _
               | _ => _
               end).
  assert (Hside : Model.jobs side.2 = Model.jobs m1).
  { subst side. destruct (Job.kind (JobQueue.deref (Model.jobs m1) job)).
    - done.
    - destruct (Job.control (JobQueue.deref (Model.jobs m1) job)) as [c|]; [|done].
      pose proof (add_control_layer_jobs host job (ClientMessage.result message) m1)
        as Hjobs.
      destruct (Model.add_control_layer host job (ClientMessage.result message) m1)
        as [[l|e] m2]; done.
    - apply add_upscale_layer_jobs.
    - by destruct (Job.results (JobQueue.deref (Model.jobs m1) job)). }
  destruct side as [[[]|e] m2]; simpl in Hside |- *; [|discriminate].
  rewrite Hkind1, (bool_decide_eq_true_2 _ Hkind).
  rewrite remove_queued by (simpl; by rewrite Hside, Hentries).
  intros [= <-]. simpl. rewrite Hside, Hentries.
  unfold JobQueue.memory_usage. split_and!; [by apply remove_first_not_in|done|done|done|done].
Qed.

Lemma handle_message_finished_other_kind_witness :
  let q := (JobQueue.add_live "a cat" canvas JobQueue.init).2 in
  let q := JobQueue.update_job J1 (Job_set_id (Some "L1")) q in
  let m := Model.with_jobs q (Model.init "style") in
  let r := Model.handle_message (budget 40) (host_without_selection "L1")
             (server_message ClientEvent.finished "L1" (Some (megabytes 50))) m in
  JobQueue._entries (Model.jobs r.2) = [] ∧
  JobQueue.memory_usage (Model.jobs r.2) = JobQueue.memory_usage q.
Proof.
  intros q0 q m r.
  destruct (handle_message_finished_other_kind (budget 40) (host_without_selection "L1")
              (server_message ClientEvent.finished "L1" (Some (megabytes 50)))
              m r.2 J1) as (_ & Hentries & Hmem & _).
  - reflexivity.
  - reflexivity.
  - discriminate.
  - vm_compute. apply NoDup_cons. split; [apply not_elem_of_nil|apply NoDup_nil_2].
  - reflexivity.
  - split; [exact Hentries|exact Hmem].
Defined.

(** A [finished] message without images for an upscaling job that holds no
    result fails the assertion of [add_upscale_layer]: [handle_message]
    raises [AssertionError] and the model is exactly as before, so the job
    stays in the queue in the state it had and the progress is not set. *)
Theorem handle_message_upscale_without_image (settings : Settings) (host : Host)
    (message : ClientMessage.t) (m : Model.t) (job : JobRef) :
  JobQueue.find (ClientMessage.job_id message) (Model.jobs m) = Some job →
  ClientMessage.event message = ClientEvent.finished →
  Job.kind (JobQueue.deref (Model.jobs m) job) = JobKind.upscaling →
  truthy_images (ClientMessage.images message) = false →
  Job.results (JobQueue.deref (Model.jobs m) job) = [] →
  Model.handle_message settings host message m = (Raise AssertionError, m).
Proof.
  intros Hfind Hevent Hkind Himages Hresults.
  unfold Model.handle_message. rewrite Hfind, Hevent, Himages.
  cbn [and_then]. rewrite Hkind. unfold Model.add_upscale_layer.
  rewrite Hkind, Hresults. done.
Qed.

Lemma handle_message_upscale_without_image_witness :
  let q := (JobQueue.add_upscale "[Upscale] 1024x1024" canvas JobQueue.init).2 in
  let q := JobQueue.update_job J1 (Job_set_id (Some "U1")) q in
  let m := Model.with_jobs q (Model.init "style") in
  Model.handle_message (budget 40) (host_without_selection "U1")
    (server_message ClientEvent.finished "U1" None) m
  = (Raise AssertionError, m).
Proof.
  intros q0 q m.
  apply (handle_message_upscale_without_image (budget 40) (host_without_selection "U1")
           (server_message ClientEvent.finished "U1" None) m J1); reflexivity.
Defined.



(** ** More on [generate] *)

(** A document whose colour mode is rejected with a message: [generate]
    reports the message and stops. The error of the model is the message, the
    live mode is off, and nothing else has happened: no coroutine is handed
    over, nothing is sent or inserted, the queue and the progress are as
    before. *)
Theorem generate_rejects_color_mode (settings : Settings) (host : Host) (m : Model.t)
    (msg : string) :
  check_color_mode host = (false, Some msg) →
  msg ≠ "" →
  let r := Model.generate settings host m in
  r.1 = Ok () ∧
  Model.error r.2 = msg ∧
  Model.live_is_active r.2 = false ∧
  Model.task r.2 = Model.task m ∧
  Model.calls r.2 = Model.calls m ∧
  Model.jobs r.2 = Model.jobs m ∧
  Model.progress r.2 = Model.progress m.
Proof.
  intros Hcolor Hmsg r. subst r. unfold Model.generate. rewrite Hcolor.
  simpl. rewrite (bool_decide_eq_false_2 _ Hmsg). done.
Qed.

Lemma generate_rejects_color_mode_witness :
  let host := mkHost (false, Some "unsupported colour mode") (mkExtent 512 512)
                (fun _ _ _ => (None, None)) (fun _ _ => Ok (mkImage 1 1048576))
                (fun _ => Ok []) (layer_existing 0)
                (fun e _ _ => mkBounds 0 0 (width e) (height e))
                (fun b _ => b) (fun b _ _ => b)
                (Ok (mkClient (fun _ => Ok "J1"))) exception_message in
  Model.error (Model.generate (budget 40) host (Model.init "style")).2
  = "unsupported colour mode".
Proof.
  intros host.
  destruct (generate_rejects_color_mode (budget 40) host (Model.init "style")
              "unsupported colour mode") as (_ & Herror & _).
  - reflexivity.
  - discriminate.
  - exact Herror.
Defined.











(** ** [cancel] *)

Lemma remove_first_app_notin (x : JobRef) (pre l : list JobRef) :
  x ∉ pre → JobQueue.remove_first x (pre ++ x :: l) = pre ++ l.
Proof.
  induction pre as [|a pre IH]; intros Hnot; simpl.
  - by rewrite decide_True.
  - apply not_elem_of_cons in Hnot as [Hne Hnot].
    rewrite decide_False by congruence. by rewrite IH.
Qed.

(** Removing, one after the other, the entries that meet [P] (as listed
    before the first removal) goes through and leaves the others in place. *)
Lemma remove_each_filter (P : JobRef → Prop) `{∀ j, Decision (P j)}
    (h : gmap JobRef Job.t) (sel : option Item) (usage : Q) (l pre : list JobRef)
    (sig : list Signal) :
  (∀ x, x ∈ pre → ¬ P x) →
  remove_each (filter P l) (JobQueue.mk h (pre ++ l) sel usage sig)
  = (Ok (),
     JobQueue.mk h (pre ++ filter (fun j => ¬ P j) l) sel usage
       (sig ++ replicate (length (filter P l)) count_changed)).
Proof.
  revert pre sig. induction l as [|a l IH]; intros pre sig Hpre.
  - rewrite !filter_nil. simpl. by rewrite !app_nil_r.
  - rewrite !filter_cons. destruct (decide (P a)) as [Ha|Ha].
    + rewrite decide_False by (intros Hn; by apply Hn).
      simpl. unfold JobQueue.remove. simpl.
      rewrite decide_True by (apply elem_of_app; right; left).
      cbn [and_then]. unfold JobQueue.emit, JobQueue.with_entries. simpl.
      rewrite remove_first_app_notin by (intros Hin; by apply (Hpre a)).
      rewrite IH by done. by rewrite <- app_assoc.
    + rewrite decide_True by done.
      replace (pre ++ a :: l) with ((pre ++ [a]) ++ l) by (by rewrite <- app_assoc).
      rewrite IH.
      * by rewrite <- app_assoc.
      * intros x Hx. apply elem_of_app in Hx as [Hx|Hx]; [by apply Hpre|].
        apply list_elem_of_singleton in Hx. by subst.
Qed.

Lemma any_executing_without_queued (h : gmap JobRef Job.t) (l : list JobRef) :
  existsb (fun j => bool_decide (Job.state (h !!! j) = State.executing))
    (filter (fun j => ¬ Job.state (h !!! j) = State.queued) l)
  = existsb (fun j => bool_decide (Job.state (h !!! j) = State.executing)) l.
Proof.
  induction l as [|a l IH]; [done|].
  rewrite filter_cons. destruct (decide (¬ Job.state (h !!! a) = State.queued)) as [Ha|Ha].
  - simpl. by rewrite IH.
  - simpl. rewrite IH.
    assert (Job.state (h !!! a) = State.queued) as Hq
      by (destruct (decide (Job.state (h !!! a) = State.queued)); [done|contradiction]).
    rewrite (bool_decide_eq_false_2 (Job.state (h !!! a) = State.executing)); [done|].
    rewrite Hq. discriminate.
Qed.

Lemma filter_complement_nil {A} (P : A → Prop) `{∀ x, Decision (P x)} (l : list A) :
  filter P (filter (fun x => ¬ P x) l) = [].
Proof.
  induction l as [|a l IH]; [by rewrite !filter_nil|].
  rewrite (filter_cons (fun x => ¬ P x)). case_decide as Ha; [|exact IH].
  rewrite filter_cons. by rewrite decide_False.
Qed.

Lemma filter_nil_complement {A} (P : A → Prop) `{∀ x, Decision (P x)} (l : list A) :
  filter P l = [] → filter (fun x => ¬ P x) l = l.
Proof.
  induction l as [|a l IH]; [by rewrite !filter_nil|].
  rewrite !filter_cons. destruct (decide (P a)) as [Ha|Ha]; [discriminate|].
  intros Hnil. rewrite decide_True by done. f_equal. by apply IH.
Qed.

Lemma remove_each_queued (q : JobQueue.t) :
  remove_each
    (filter (fun job => Job.state (JobQueue.deref q job) = State.queued)
       (JobQueue._entries q)) q
  = (Ok (),
     JobQueue.mk (JobQueue.heap q)
       (filter (fun job => ¬ Job.state (JobQueue.deref q job) = State.queued)
          (JobQueue._entries q))
       (JobQueue._selection q) (JobQueue._memory_usage q)
       (JobQueue.emitted q
        ++ replicate
             (length (filter (fun job => Job.state (JobQueue.deref q job) = State.queued)
                        (JobQueue._entries q)))
             count_changed)).
Proof.
  destruct q as [h entries sel usage sig].
  apply (remove_each_filter
           (fun job => Job.state (h !!! job) = State.queued) h sel usage entries [] sig).
  intros x Hx. by apply elem_of_nil in Hx.
Qed.

(** [cancel(queued=True)] never raises and takes exactly the queued jobs out
    of the queue: the jobs in other states stay, in their order, no job is
    queued afterwards, and the jobs themselves, the accumulator and the
    selection are untouched. The connection's queue is cleared if and only if
    there was a queued job, and the running job is interrupted if and only if
    [active] is set and some job is executing. *)
Theorem cancel_removes_queued_jobs (active : bool) (m : Model.t)
    (connection : list ConnectionCall) :
  let waiting :=
    filter (fun job => Job.state (JobQueue.deref (Model.jobs m) job) = State.queued)
      (JobQueue._entries (Model.jobs m)) in
  let r := Model_cancel active true (m, connection) in
  r.1 = Ok () ∧
  JobQueue._entries (Model.jobs r.2.1)
    = filter (fun job => ¬ Job.state (JobQueue.deref (Model.jobs m) job) = State.queued)
        (JobQueue._entries (Model.jobs m)) ∧
  JobQueue.count State.queued (Model.jobs r.2.1) = 0%nat ∧
  JobQueue.heap (Model.jobs r.2.1) = JobQueue.heap (Model.jobs m) ∧
  JobQueue.memory_usage (Model.jobs r.2.1) = JobQueue.memory_usage (Model.jobs m) ∧
  JobQueue._selection (Model.jobs r.2.1) = JobQueue._selection (Model.jobs m) ∧
  r.2.2 = connection
          ++ (if bool_decide (waiting ≠ []) then [clear_queue] else [])
          ++ (if active && JobQueue.any_executing (Model.jobs m) then [interrupt] else []).
Proof.
  intros waiting r. subst r waiting. unfold Model_cancel.
  pose proof (any_executing_without_queued (JobQueue.heap (Model.jobs m))
                (JobQueue._entries (Model.jobs m))) as Hexec.
  pose proof (filter_complement_nil
                (fun job => Job.state (JobQueue.deref (Model.jobs m) job) = State.queued)
                (JobQueue._entries (Model.jobs m))) as Hnone.
  pose proof (remove_each_queued (Model.jobs m)) as Hremove.
  pose proof (filter_nil_complement
                (fun job => Job.state (JobQueue.deref (Model.jobs m) job) = State.queued)
                (JobQueue._entries (Model.jobs m))) as Hall.
  destruct (filter (fun job => Job.state (JobQueue.deref (Model.jobs m) job) = State.queued)
              (JobQueue._entries (Model.jobs m))) as [|w ws].
  - specialize (Hall eq_refl).
    rewrite (bool_decide_eq_false_2 (0 < length [])%nat) by (simpl; lia).
    rewrite (bool_decide_eq_false_2 ([] ≠ [])) by (intros Hn; by apply Hn).
    cbn [and_then]. rewrite Hall.
    assert (Hcount : JobQueue.count State.queued (Model.jobs m) = 0%nat).
    { unfold JobQueue.count. rewrite <- Hall at 1. by rewrite Hnone. }
    destruct (active && JobQueue.any_executing (Model.jobs m)); cbn;
      split_and!; try done; by rewrite ?app_nil_r.
  - rewrite (bool_decide_eq_true_2 (0 < length (w :: ws))%nat) by (simpl; lia).
    rewrite (bool_decide_eq_true_2 (w :: ws ≠ [])) by done.
    rewrite Hremove. cbn [and_then Model.jobs Model.with_jobs].
    assert (Hexec' :
      JobQueue.any_executing
        (JobQueue.mk (JobQueue.heap (Model.jobs m))
           (filter (fun job => ¬ Job.state (JobQueue.deref (Model.jobs m) job)
                                 = State.queued) (JobQueue._entries (Model.jobs m)))
           (JobQueue._selection (Model.jobs m)) (JobQueue._memory_usage (Model.jobs m))
           (JobQueue.emitted (Model.jobs m)
            ++ replicate (length (w :: ws)) count_changed))
      = JobQueue.any_executing (Model.jobs m)) by exact Hexec.
    rewrite Hexec'.
    assert (Hcount :
      JobQueue.count State.queued
        (JobQueue.mk (JobQueue.heap (Model.jobs m))
           (filter (fun job => ¬ Job.state (JobQueue.deref (Model.jobs m) job)
                                 = State.queued) (JobQueue._entries (Model.jobs m)))
           (JobQueue._selection (Model.jobs m)) (JobQueue._memory_usage (Model.jobs m))
           (JobQueue.emitted (Model.jobs m)
            ++ replicate (length (w :: ws)) count_changed)) = 0%nat).
    { unfold JobQueue.count. cbn [JobQueue._entries].
      change (filter _ (filter _ (JobQueue._entries (Model.jobs m))))
        with (filter (fun job => Job.state (JobQueue.deref (Model.jobs m) job)
                                 = State.queued)
                (filter (fun job => ¬ Job.state (JobQueue.deref (Model.jobs m) job)
                                      = State.queued)
                   (JobQueue._entries (Model.jobs m)))).
      by rewrite Hnone. }
    destruct (active && JobQueue.any_executing (Model.jobs m)); cbn [fst snd Model.jobs];
      (split_and!; [done|done|exact Hcount|done|done|done|]); cbn;
      by rewrite <- ?app_assoc.
Qed.

Lemma cancel_removes_queued_jobs_witness :
  let r := Model_cancel true true (model_with_job, []) in
  r.1 = Ok () ∧ JobQueue._entries (Model.jobs r.2.1) = [] ∧ r.2.2 = [clear_queue].
Proof.
  destruct (cancel_removes_queued_jobs true model_with_job [])
    as (Hok & Hentries & _ & _ & _ & _ & Hcalls).
  split_and!; [exact Hok|exact Hentries|exact Hcalls].
Defined.

(** ** Results and the finished state, along a run *)

(** From a model in which the results of the queued jobs are with the
    finished ones only, every run of operations that meet their conditions
    ends in such a model. The dispatchers of the other kinds are covered as
    runs: [add_upscale], [add_live] or [add_control], then [clear_error], and
    later the assignment of the id. *)
Theorem results_with_finished_along_runs (settings : Settings) (host : Host)
    (ops : list Operation) (m : Model.t) :
  results_only_when_finished (Model.jobs m) →
  keeps_results_along settings host ops m →
  results_only_when_finished (Model.jobs (perform_all settings host ops m)).
Proof.
  revert m. induction ops as [|op ops IH]; intros m HR Hops; [done|].
  destruct Hops as [Hop Hops]. simpl. apply IH; [|done].
  by apply perform_keeps_results.
Qed.

Lemma results_with_finished_along_runs_witness :
  let host := host_without_selection "J1" in
  let ops := [call_generate; call_run_task;
              call_handle_message (server_message ClientEvent.progress "J1" None);
              call_handle_message
                (server_message ClientEvent.finished "J1" (Some (megabytes 50)));
              call_add_upscale "[Upscale] 1024x1024" (mkBounds 0 0 1024 1024);
              call_clear_error; call_assign_id J2 "U1";
              call_handle_message
                (server_message ClientEvent.finished "U1" (Some (megabytes 8)));
              call_cancel true true] in
  results_only_when_finished
    (Model.jobs (perform_all (budget 40) host ops (Model.init "style"))).
Proof.
  intros host ops.
  apply (results_with_finished_along_runs (budget 40) host ops (Model.init "style")).
  - intros j Hj. by apply elem_of_nil in Hj.
  - vm_compute. repeat split.
Defined.
